(** * PromptPal: scoring, hint economy and progress store

    A shallow embedding of the game core of PromptPal: the static level
    table ([features/levels/data.ts]), the persistent game store
    ([features/game/store.ts]) and the submit handler of the game screen
    ([handleGenerate]).  JavaScript numbers that the code only ever
    combines with integers are integers here ([Z]); an object key that may
    be absent is an [option]; a [TypeError] thrown inside a store update
    is [None] (the store keeps its old state). *)

From Stdlib Require Import ZArith List Lia Bool.
From stdpp Require Import base option strings list gmap.

Local Open Scope Z_scope.

(** ** Level content: [features/levels/types.ts], [features/levels/data.ts] *)

Module Levels.

Inductive Difficulty := easy | medium | hard | expert.

(** [title], [targetImageUrl], [hiddenPromptKeywords] and
    [estimatedTime] are display data that no modelled function reads;
    they are left out of the record. *)
Record Level := {
  id : string;
  difficulty : Difficulty;
  passingScore : Z;
  hints : list string;
}.

Definition LEVELS : list Level := [
  {| id := "easy-001"; difficulty := easy; passingScore := 60;
     hints := ["Think about the time of day";
               "What natural setting do you see?";
               "Describe the colors in the sky"] |};
  {| id := "easy-002"; difficulty := easy; passingScore := 60;
     hints := ["What type of natural environment is this?";
               "Is there a pathway visible?";
               "What colors dominate the scene?"] |};
  {| id := "easy-003"; difficulty := easy; passingScore := 60;
     hints := ["Is this a natural or man-made environment?";
               "What structures do you see?";
               "Think about the perspective"] |};
  {| id := "easy-004"; difficulty := easy; passingScore := 60;
     hints := ["What landform is featured?";
               "Is there snow visible?";
               "Describe the elevation"] |};
  {| id := "easy-005"; difficulty := easy; passingScore := 60;
     hints := ["What weather condition is shown?";
               "Look at the ground surface";
               "Notice any reflections?"] |};
  {| id := "medium-006"; difficulty := medium; passingScore := 70;
     hints := ["What artistic style is this?";
               "Describe the lighting sources";
               "What time of day is it?"] |};
  {| id := "medium-007"; difficulty := medium; passingScore := 70;
     hints := ["What medium/style is this artwork?";
               "What subject matter is depicted?";
               "Describe the texture quality"] |};
  {| id := "medium-008"; difficulty := medium; passingScore := 70;
     hints := ["What genre/aesthetic is this?";
               "What materials are prominent?";
               "What historical era is referenced?"] |};
  {| id := "medium-009"; difficulty := medium; passingScore := 70;
     hints := ["What design philosophy is shown?";
               "Describe the color palette";
               "What type of space is this?"] |};
  {| id := "medium-010"; difficulty := medium; passingScore := 70;
     hints := ["What natural phenomenon is shown?";
               "Where is this location?";
               "Describe the light source"] |};
  {| id := "hard-011"; difficulty := hard; passingScore := 80;
     hints := ["What art movement is this?";
               "Describe the physics of the scene";
               "Any famous artist references?"] |};
  {| id := "hard-012"; difficulty := hard; passingScore := 80;
     hints := ["What historical art period?";
               "Describe the lighting technique";
               "What type of artwork is this?"] |};
  {| id := "hard-013"; difficulty := hard; passingScore := 80;
     hints := ["What perspective/projection is used?";
               "What art style is this?";
               "Describe the geometric approach"] |};
  {| id := "hard-014"; difficulty := hard; passingScore := 80;
     hints := ["What cinematic genre?";
               "Describe the color scheme";
               "What era is referenced?"] |};
  {| id := "hard-015"; difficulty := hard; passingScore := 80;
     hints := ["What art movement?";
               "Describe the technique";
               "Any artist references?"] |};
  {| id := "expert-016"; difficulty := expert; passingScore := 85;
     hints := ["What cultural art tradition?";
               "What printing technique?";
               "Famous artist from this style?"] |};
  {| id := "expert-017"; difficulty := expert; passingScore := 85;
     hints := ["What lighting technique?";
               "What subject type?";
               "Which master painter used this?"] |};
  {| id := "expert-018"; difficulty := expert; passingScore := 85;
     hints := ["What architectural movement?";
               "What primary material?";
               "Describe the aesthetic philosophy"] |};
  {| id := "expert-019"; difficulty := expert; passingScore := 85;
     hints := ["What artistic technique?";
               "Where is this typically found?";
               "What is the visual effect?"] |};
  {| id := "expert-020"; difficulty := expert; passingScore := 85;
     hints := ["What painting technique?";
               "How is color applied?";
               "Which artist pioneered this?"] |}
].

(** [Array.prototype.findIndex]: the index of the first element that
    satisfies [p], and [-1] when there is none. *)
Fixpoint findIndex {A} (p : A -> bool) (l : list A) : Z :=
  match l with
  | [] => -1
  | x :: l' =>
      if p x then 0
      else let i := findIndex p l' in if i <? 0 then -1 else i + 1
  end.

(** [arr[i]]: [undefined] outside of [0 .. length - 1]. *)
Definition index {A} (l : list A) (i : Z) : option A :=
  if i <? 0 then None else nth_error l (Z.to_nat i).

Definition hasId (i : string) (l : Level) : bool := String.eqb (id l) i.

Definition getLevelById (i : string) : option Level :=
  find (hasId i) LEVELS.

Definition getNextLevel (currentLevelId : string) : option Level :=
  let currentIndex := findIndex (hasId currentLevelId) LEVELS in
  index LEVELS (currentIndex + 1).

Definition ids : list string := map id LEVELS.

End Levels.

(** ** The game store: [features/game/store.ts] *)

Module GameStore.
Import Levels.

(** A JavaScript number as the store can hold it in a progress entry:
    an integer, or [NaN] once arithmetic met an absent field. *)
Inductive number := Num (z : Z) | NaN.

(** [ToNumber] of a field read: [undefined] converts to [NaN]. *)
Definition toNumber (v : option number) : number :=
  match v with Some n => n | None => NaN end.

(** [a > b]: false as soon as one side is [NaN]. *)
Definition gt (a b : number) : bool :=
  match a, b with Num x, Num y => y <? x | _, _ => false end.

Definition Math_max (a b : number) : number :=
  match a, b with Num x, Num y => Num (Z.max x y) | _, _ => NaN end.

Definition add (a b : number) : number :=
  match a, b with Num x, Num y => Num (x + y) | _, _ => NaN end.

Definition sub (a b : number) : number :=
  match a, b with Num x, Num y => Num (x - y) | _, _ => NaN end.

(** [LevelProgress].  Every field is optional in the model: the spread
    of an absent entry, [{...undefined, isUnlocked: true}], is an object
    that holds [isUnlocked] only. *)
Record LevelProgress := {
  levelId : option string;
  isUnlocked : option bool;
  bestScore : option number;
  attempts : option number;
  completed : option bool;
  lastPlayedAt : option string;
}.

Record GameState := {
  currentLives : Z;
  maxLives : Z;
  levelProgress : gmap string LevelProgress;
  totalScore : number;
  achievements : list string;
}.

(** [{...o}] for a possibly absent [o]. *)
Definition spread (o : option LevelProgress) : LevelProgress :=
  match o with
  | Some p => p
  | None => {| levelId := None; isUnlocked := None; bestScore := None;
               attempts := None; completed := None; lastPlayedAt := None |}
  end.

Definition defaultEntry (index : nat) (level : Level) : LevelProgress :=
  {| levelId := Some (id level);
     isUnlocked := Some (Nat.eqb index 0);
     bestScore := Some (Num 0);
     attempts := Some (Num 0);
     completed := Some false;
     lastPlayedAt := None |}.

(** The [forEach] loop of [createDefaultProgress], from index [index]. *)
Fixpoint fillProgress (index : nat) (levels : list Level)
    (progress : gmap string LevelProgress) : gmap string LevelProgress :=
  match levels with
  | [] => progress
  | level :: rest =>
      fillProgress (S index) rest
        (<[id level := defaultEntry index level]> progress)
  end.

Definition createDefaultProgress : gmap string LevelProgress :=
  fillProgress 0 LEVELS ∅.

Definition initialState : GameState :=
  {| currentLives := 3; maxLives := 3;
     levelProgress := createDefaultProgress;
     totalScore := Num 0; achievements := [] |}.

Definition set_levelProgress (lp : gmap string LevelProgress)
    (state : GameState) : GameState :=
  {| currentLives := currentLives state; maxLives := maxLives state;
     levelProgress := lp;
     totalScore := totalScore state; achievements := achievements state |}.

Definition initializeProgress (state : GameState) : GameState :=
  if bool_decide (levelProgress state = ∅)
  then set_levelProgress createDefaultProgress state
  else state.

Definition unlock (p : LevelProgress) : LevelProgress :=
  {| levelId := levelId p; isUnlocked := Some true;
     bestScore := bestScore p; attempts := attempts p;
     completed := completed p; lastPlayedAt := lastPlayedAt p |}.

Definition unlockLevel (levelId : string) (state : GameState) : GameState :=
  set_levelProgress
    (<[levelId := unlock (spread (levelProgress state !! levelId))]>
       (levelProgress state))
    state.

(** The object stored under [[levelId]] by [updateLevelProgress]. *)
Definition recorded (now : string) (score : Z) (isCompleted : bool)
    (currentProgress : LevelProgress) : LevelProgress :=
  {| levelId := levelId currentProgress;
     isUnlocked := isUnlocked currentProgress;
     bestScore :=
       Some (Math_max (toNumber (bestScore currentProgress)) (Num score));
     attempts := Some (add (toNumber (attempts currentProgress)) (Num 1));
     completed :=
       if isCompleted then Some true else completed currentProgress;
     lastPlayedAt := Some now |}.

(** The spread [...(isCompleted && nextLevel ? {...} : {})] over the
    object built so far; the entry of the next level is read from the
    state before the update. *)
Definition unlockNext (isCompleted : bool) (nextLevel : option Level)
    (old sofar : gmap string LevelProgress) : gmap string LevelProgress :=
  match nextLevel with
  | Some next =>
      if isCompleted
      then <[id next := unlock (spread (old !! id next))]> sofar
      else sofar
  | None => sofar
  end.

(** [updateLevelProgress].  [now] is the value of
    [new Date().toISOString()].  [currentProgress.bestScore] on an
    absent entry and [LEVELS.find(...)!.passingScore] on an unknown id
    throw a [TypeError]: [None]. *)
Definition updateLevelProgress (now : string) (levelId : string)
    (score : Z) (state : GameState) : option GameState :=
  currentProgress ← levelProgress state !! levelId;
  let isNewBest := gt (Num score) (toNumber (bestScore currentProgress)) in
  level ← find (hasId levelId) LEVELS;
  let isCompleted := passingScore level <=? score in
  let currentIndex := findIndex (hasId levelId) LEVELS in
  let nextLevel := index LEVELS (currentIndex + 1) in
  Some
    {| currentLives := currentLives state;
       maxLives := maxLives state;
       levelProgress :=
         unlockNext isCompleted nextLevel (levelProgress state)
           (<[levelId := recorded now score isCompleted currentProgress]>
              (levelProgress state));
       totalScore :=
         if isNewBest
         then add (totalScore state)
                (sub (Num score) (toNumber (bestScore currentProgress)))
         else totalScore state;
       achievements := achievements state |}.

Definition loseLife (state : GameState) : GameState :=
  {| currentLives := Z.max 0 (currentLives state - 1);
     maxLives := maxLives state;
     levelProgress := levelProgress state;
     totalScore := totalScore state;
     achievements := achievements state |}.

Definition resetLives (state : GameState) : GameState :=
  {| currentLives := maxLives state;
     maxLives := maxLives state;
     levelProgress := levelProgress state;
     totalScore := totalScore state;
     achievements := achievements state |}.

Definition resetProgress (state : GameState) : GameState :=
  {| currentLives := 3;
     maxLives := maxLives state;
     levelProgress := createDefaultProgress;
     totalScore := Num 0;
     achievements := [] |}.

(** [[...new Set(xs)]]: the distinct elements in order of first
    occurrence. *)
Fixpoint uniq (seen xs : list string) : list string :=
  match xs with
  | [] => []
  | x :: rest =>
      if bool_decide (x ∈ seen) then uniq seen rest
      else x :: uniq (x :: seen) rest
  end.

Definition addAchievement (achievement : string) (state : GameState)
    : GameState :=
  {| currentLives := currentLives state;
     maxLives := maxLives state;
     levelProgress := levelProgress state;
     totalScore := totalScore state;
     achievements := uniq [] (achievements state ++ [achievement]) |}.

(** The actions of the store, and the states the store can reach from
    its initial state.  An action that throws leaves the state as it
    was. *)
Inductive Action :=
| InitializeProgress
| UnlockLevel (levelId : string)
| UpdateLevelProgress (now levelId : string) (score : Z)
| LoseLife
| ResetLives
| ResetProgress
| AddAchievement (achievement : string).

Definition dispatch (a : Action) (state : GameState) : GameState :=
  match a with
  | InitializeProgress => initializeProgress state
  | UnlockLevel levelId => unlockLevel levelId state
  | UpdateLevelProgress now levelId score =>
      match updateLevelProgress now levelId score state with
      | Some state' => state'
      | None => state
      end
  | LoseLife => loseLife state
  | ResetLives => resetLives state
  | ResetProgress => resetProgress state
  | AddAchievement achievement => addAchievement achievement state
  end.

Definition run (actions : list Action) (state : GameState) : GameState :=
  fold_left (fun st a => dispatch a st) actions state.

(** What every reachable state satisfies for the entry of a level of
    [LEVELS]: it is there, with integer [bestScore] and [attempts] and a
    boolean [completed]. *)
Definition entry_ok (p : LevelProgress) : Prop :=
  (exists b, bestScore p = Some (Num b)) /\
  (exists a, attempts p = Some (Num a)) /\
  (exists c, completed p = Some c).

Definition progress_ok (lp : gmap string LevelProgress) : Prop :=
  forall i, i ∈ ids -> exists p, lp !! i = Some p /\ entry_ok p.

End GameStore.

(** ** Hint ledger and penalty calculator: [lib/nanoAssistant]

    The game screen imports [NanoAssistant] from [lib/nanoAssistant];
    that file is not among the sources.  The three modules below follow
    the specification of the ledger and of the calculator, under the names
    the game screen calls them by. *)

Module HintLedger.

(** Modelled from the spec: the [HintUsageRecord] of the absent
    [lib/nanoAssistant], the hint indices revealed in one level attempt,
    each with its reveal time (most recent first). *)
Record HintUsageRecord := { revealed : list (nat * Z) }.

(** Modelled from the spec: [reset(levelId)] of the absent
    [lib/nanoAssistant] clears all revealed-hint state of the level. *)
Definition reset (levelId : string)
    (ledger : gmap string HintUsageRecord) : gmap string HintUsageRecord :=
  <[levelId := {| revealed := [] |}]> ledger.

(** Modelled from the spec: the next undisclosed hint index of the absent
    [lib/nanoAssistant], the least index below the hint count that the
    record does not hold. *)
Definition nextUndisclosed (totalHints : nat) (record : HintUsageRecord)
    : option nat :=
  find (fun i => negb (existsb (Nat.eqb i) (map fst (revealed record))))
       (seq 0 totalHints).

Section Provider.
(** The level content provider, [getLevel(id) -> Level | Empty]. *)
Variable getLevel : string -> option Levels.Level.

Definition totalHints (levelId : string) : nat :=
  match getLevel levelId with
  | Some level => length (Levels.hints level)
  | None => 0%nat
  end.

(** Modelled from the spec: [revealNext(levelId)] of the absent
    [lib/nanoAssistant] returns the next undisclosed hint index in
    ascending order and marks it revealed with the current time, or
    signals that no hint is left ([None]) and changes nothing; a level
    the ledger does not know gives the empty reveal. *)
Definition revealNext (now : Z) (levelId : string)
    (ledger : gmap string HintUsageRecord)
    : option nat * gmap string HintUsageRecord :=
  match ledger !! levelId with
  | None => (None, ledger)
  | Some record =>
      match nextUndisclosed (totalHints levelId) record with
      | Some i =>
          (Some i,
           <[levelId := {| revealed := (i, now) :: revealed record |}]>
             ledger)
      | None => (None, ledger)
      end
  end.

(** One call of [revealNext] per element of [times], in a row: the
    answers in call order and the ledger after the last call. *)
Fixpoint revealMany (times : list Z) (levelId : string)
    (ledger : gmap string HintUsageRecord)
    : list (option nat) * gmap string HintUsageRecord :=
  match times with
  | [] => ([], ledger)
  | now :: later =>
      let '(answer, ledger') := revealNext now levelId ledger in
      let '(answers, ledger'') := revealMany later levelId ledger' in
      (answer :: answers, ledger'')
  end.
End Provider.

(** Modelled from the spec: [usageCount(levelId)] of the absent
    [lib/nanoAssistant], the number of hints revealed so far for the
    level; zero for a level the ledger does not know. *)
Definition usageCount (levelId : string)
    (ledger : gmap string HintUsageRecord) : nat :=
  match ledger !! levelId with
  | Some record => length (revealed record)
  | None => 0%nat
  end.

End HintLedger.

Module PenaltyCalculator.

(** Modelled from the spec: the [ScoreBreakdown] value object that the
    penalty computation of the absent [lib/nanoAssistant] returns. *)
Record ScoreBreakdown := {
  rawScore : Z;
  hintsUsed : Z;
  penaltyPerHint : Z;
  penaltyPoints : Z;
  finalScore : Z;
}.

(** Modelled from the spec: the per-hint penalty table of the absent
    [lib/nanoAssistant] (easy 8, medium 6, hard 4, expert 3). *)
Definition penaltyPerHintOf (d : Levels.Difficulty) : Z :=
  match d with
  | Levels.easy => 8
  | Levels.medium => 6
  | Levels.hard => 4
  | Levels.expert => 3
  end.

(** Modelled from the spec: [clamp(x, lo, hi)] as the absent
    [lib/nanoAssistant] uses it, [x] brought into [lo .. hi]. *)
Definition clamp (x lo hi : Z) : Z := Z.max lo (Z.min x hi).

(** Modelled from the spec: the penalty computation of the absent
    [lib/nanoAssistant]; [penaltyPoints] is
    [min(hintsUsed * penaltyPerHint, rawScore)], [finalScore] is
    [clamp(rawScore - penaltyPoints, 0, 100)].  The passing score is an
    input that the algorithm of the specification does not read. *)
Definition compute (rawScore passingScore : Z)
    (difficulty : Levels.Difficulty) (hintsUsed : Z) : ScoreBreakdown :=
  let perHint := penaltyPerHintOf difficulty in
  let points := Z.min (hintsUsed * perHint) rawScore in
  {| rawScore := rawScore;
     hintsUsed := hintsUsed;
     penaltyPerHint := perHint;
     penaltyPoints := points;
     finalScore := clamp (rawScore - points) 0 100 |}.

End PenaltyCalculator.

Module NanoAssistant.

(** Modelled from the spec: [resetHintsForLevel] of the absent
    [lib/nanoAssistant] is the ledger's [reset]. *)
Definition resetHintsForLevel := HintLedger.reset.

(** Modelled from the spec: [getPenaltyDetails] of the absent
    [lib/nanoAssistant] reads the level's usage count from the ledger and
    runs the penalty computation on it. *)
Definition getPenaltyDetails (ledger : gmap string HintLedger.HintUsageRecord)
    (levelId : string) (score passingScore : Z)
    (difficulty : Levels.Difficulty) : PenaltyCalculator.ScoreBreakdown :=
  PenaltyCalculator.compute score passingScore difficulty
    (Z.of_nat (HintLedger.usageCount levelId ledger)).

End NanoAssistant.

(** ** JavaScript strings: [String.prototype.trim] *)

Module JsString.

(** A string is its sequence of UTF-16 code units. *)
Definition jsstring : Type := list Z.

(** ECMAScript [WhiteSpace] and [LineTerminator] code points, the ones
    [trim] strips. *)
Definition isWhiteSpace (c : Z) : bool :=
  existsb (Z.eqb c)
    [0x09; 0x0A; 0x0B; 0x0C; 0x0D; 0x20; 0xA0; 0x1680; 0x2028; 0x2029;
     0x202F; 0x205F; 0x3000; 0xFEFF]
  || ((0x2000 <=? c) && (c <=? 0x200A)).

Fixpoint trimStart (s : jsstring) : jsstring :=
  match s with
  | [] => []
  | c :: rest => if isWhiteSpace c then trimStart rest else s
  end.

Definition trimEnd (s : jsstring) : jsstring := rev (trimStart (rev s)).

Definition trim (s : jsstring) : jsstring := trimEnd (trimStart s).

(** Truthiness of a string: only the empty string is falsy. *)
Definition truthy (s : jsstring) : bool :=
  match s with [] => false | _ :: _ => true end.

End JsString.

(** ** The game screen: [handleGenerate] and its state *)

Module GameScreen.
Import JsString.

Inductive ChallengeType := image | code | copywriting.

(** The fields of the level that [handleGenerate] reads.  [type] is
    [None] for a level whose type is none of the three challenge
    types. *)
Record ApiLevel := {
  id : string;
  type : option ChallengeType;
  passingScore : Z;
  difficulty : Levels.Difficulty;
}.

Inductive Tab := target | attempt.

(** The [useState] cells of the component. *)
Record Screen := {
  prompt : jsstring;
  isGenerating : bool;
  generatedImage : option string;
  activeTab : Tab;
  showResult : bool;
  lastScore : Z;
  promptError : option string;
}.

Definition setPrompt (v : jsstring) (s : Screen) : Screen :=
  {| prompt := v; isGenerating := isGenerating s;
     generatedImage := generatedImage s; activeTab := activeTab s;
     showResult := showResult s; lastScore := lastScore s;
     promptError := promptError s |}.

Definition setIsGenerating (v : bool) (s : Screen) : Screen :=
  {| prompt := prompt s; isGenerating := v;
     generatedImage := generatedImage s; activeTab := activeTab s;
     showResult := showResult s; lastScore := lastScore s;
     promptError := promptError s |}.

Definition setGeneratedImage (v : option string) (s : Screen) : Screen :=
  {| prompt := prompt s; isGenerating := isGenerating s;
     generatedImage := v; activeTab := activeTab s;
     showResult := showResult s; lastScore := lastScore s;
     promptError := promptError s |}.

Definition setActiveTab (v : Tab) (s : Screen) : Screen :=
  {| prompt := prompt s; isGenerating := isGenerating s;
     generatedImage := generatedImage s; activeTab := v;
     showResult := showResult s; lastScore := lastScore s;
     promptError := promptError s |}.

Definition setShowResult (v : bool) (s : Screen) : Screen :=
  {| prompt := prompt s; isGenerating := isGenerating s;
     generatedImage := generatedImage s; activeTab := activeTab s;
     showResult := v; lastScore := lastScore s;
     promptError := promptError s |}.

Definition setLastScore (v : Z) (s : Screen) : Screen :=
  {| prompt := prompt s; isGenerating := isGenerating s;
     generatedImage := generatedImage s; activeTab := activeTab s;
     showResult := showResult s; lastScore := v;
     promptError := promptError s |}.

Definition setPromptError (v : option string) (s : Screen) : Screen :=
  {| prompt := prompt s; isGenerating := isGenerating s;
     generatedImage := generatedImage s; activeTab := activeTab s;
     showResult := showResult s; lastScore := lastScore s;
     promptError := v |}.

(** A call of [handleGenerate] suspended at its [await]. *)
Inductive Pending := AwaitImage | AwaitCode | AwaitCopywriting.

(** How the awaited promise settles.  The two timers always fulfil. *)
Inductive Response := Fulfilled (imageUrl : option string) | Rejected.

(** Calls that leave the component: the evaluator, the timers, the
    logger, the two store actions and the alert. *)
Inductive Effect :=
| GenerateImage (prompt : jsstring)
| Timer (ms : Z)
| LoggerError
| CompleteLevel (levelId : string)
| LoseLife
| AlertTryAgain (finalScore : Z) (penalty : option (Z * Z * Z))
    (passingScore : Z).

(** The component state, the game store, the hint ledger behind
    [NanoAssistant], the suspended calls of [handleGenerate] and the
    calls made so far (oldest first). *)
Record World := {
  screen : Screen;
  store : GameStore.GameState;
  ledger : gmap string HintLedger.HintUsageRecord;
  inFlight : list Pending;
  effects : list Effect;
}.

Definition onScreen (f : Screen -> Screen) (w : World) : World :=
  {| screen := f (screen w); store := store w; ledger := ledger w;
     inFlight := inFlight w; effects := effects w |}.

Definition onStore (f : GameStore.GameState -> GameStore.GameState)
    (w : World) : World :=
  {| screen := screen w; store := f (store w); ledger := ledger w;
     inFlight := inFlight w; effects := effects w |}.

Definition setLedger (l : gmap string HintLedger.HintUsageRecord)
    (w : World) : World :=
  {| screen := screen w; store := store w; ledger := l;
     inFlight := inFlight w; effects := effects w |}.

Definition emit (e : Effect) (w : World) : World :=
  {| screen := screen w; store := store w; ledger := ledger w;
     inFlight := inFlight w; effects := effects w ++ [e] |}.

Definition suspend (p : Pending) (w : World) : World :=
  {| screen := screen w; store := store w; ledger := ledger w;
     inFlight := inFlight w ++ [p]; effects := effects w |}.

Definition settle (k : nat) (w : World) : World :=
  {| screen := screen w; store := store w; ledger := ledger w;
     inFlight := take k (inFlight w) ++ drop (S k) (inFlight w);
     effects := effects w |}.

Definition initialScreen : Screen :=
  {| prompt := []; isGenerating := false; generatedImage := None;
     activeTab := target; showResult := false; lastScore := 0;
     promptError := None |}.

Definition initialWorld (st : GameStore.GameState)
    (l : gmap string HintLedger.HintUsageRecord) : World :=
  {| screen := initialScreen; store := st; ledger := l;
     inFlight := []; effects := [] |}.

Section Handlers.
(** [completeLevel] is an action of the store the screen imports; the
    store of [features/game/store.ts] at hand does not define it. *)
Variable completeLevel :
  string -> GameStore.GameState -> GameStore.GameState.
(** [NanoAssistant.getPenaltyDetails] is imported from
    [lib/nanoAssistant], which is not at hand either; the handlers take
    it as a parameter.  [NanoAssistant.getPenaltyDetails] above is the
    instance that follows the specification. *)
Variable getPenaltyDetails :
  gmap string HintLedger.HintUsageRecord -> string -> Z -> Z ->
  Levels.Difficulty -> PenaltyCalculator.ScoreBreakdown.
Variable level : ApiLevel.

(** The call [NanoAssistant.getPenaltyDetails(level.id, score,
    level.passingScore, level.difficulty)]; the hint ledger it reads is
    the one of the world at the time of the call. *)
Definition penaltyDetailsOf (score : Z) (w : World)
    : PenaltyCalculator.ScoreBreakdown :=
  getPenaltyDetails (ledger w) (id level) score
    (passingScore level) (difficulty level).

(** The [try] block of [handleGenerate] from the penalty on. *)
Definition scoreAttempt (score : Z) (w : World) : World :=
  let penaltyDetails := penaltyDetailsOf score w in
  let finalScore := PenaltyCalculator.finalScore penaltyDetails in
  let w := onScreen (setLastScore finalScore) w in
  if passingScore level <=? finalScore then
    emit (CompleteLevel (id level))
      (onStore (completeLevel (id level))
         (onScreen (setShowResult true) w))
  else
    emit
      (AlertTryAgain finalScore
         (if 0 <? PenaltyCalculator.hintsUsed penaltyDetails
          then Some (score,
                     PenaltyCalculator.penaltyPoints penaltyDetails,
                     PenaltyCalculator.hintsUsed penaltyDetails)
          else None)
         (passingScore level))
      (emit LoseLife (onStore GameStore.loseLife w)).

(** The [catch] and the [finally] block. *)
Definition catch (w : World) : World :=
  onScreen
    (setPromptError (Some "Something went wrong. Please try again."%string))
    (emit LoggerError w).

Definition finally (w : World) : World :=
  onScreen (setIsGenerating false) w.

(** [handleGenerate] up to its [await]. *)
Definition handleGenerate (w : World) : World :=
  if negb (truthy (trim (prompt (screen w)))) then
    onScreen (setPromptError (Some "Please enter a prompt"%string)) w
  else
    let w := onScreen (setPromptError None) w in
    let w := onScreen (setIsGenerating true) w in
    match type level with
    | Some image =>
        suspend AwaitImage (emit (GenerateImage (prompt (screen w))) w)
    | Some code => suspend AwaitCode (emit (Timer 1500) w)
    | Some copywriting => suspend AwaitCopywriting (emit (Timer 1500) w)
    | None => finally (scoreAttempt 0 w)
    end.

(** [handleGenerate] from its [await] on.  [draw] is the value of
    [Math.floor(Math.random() * 30)], an integer from 0 to 29. *)
Definition resume (p : Pending) (r : Response) (draw : Z) (w : World)
    : World :=
  match p, r with
  | AwaitImage, Fulfilled imageUrl =>
      let w := onScreen (setGeneratedImage imageUrl) w in
      let w := onScreen (setActiveTab attempt) w in
      finally (scoreAttempt (draw + 70) w)
  | AwaitImage, Rejected => finally (catch w)
  | AwaitCode, _ => finally (scoreAttempt 100 w)
  | AwaitCopywriting, _ => finally (scoreAttempt 85 w)
  end.

Definition handlePromptChange (text : jsstring) (w : World) : World :=
  let w := onScreen (setPrompt text) w in
  match promptError (screen w) with
  | Some message =>
      if String.eqb message EmptyString then w
      else onScreen (setPromptError None) w
  | None => w
  end.

(** What can happen to the screen: the view calls [onGenerate] or
    [onChangeText], the [k]-th suspended call settles, or another
    component changes the hint ledger. *)
Inductive Event :=
| Press
| PromptChange (text : jsstring)
| Settle (k : nat) (r : Response) (draw : Z)
| Hints (l : gmap string HintLedger.HintUsageRecord).

Definition step (e : Event) (w : World) : World :=
  match e with
  | Press => handleGenerate w
  | PromptChange text => handlePromptChange text w
  | Settle k r draw =>
      match inFlight w !! k with
      | Some p => resume p r draw (settle k w)
      | None => w
      end
  | Hints l => setLedger l w
  end.

Definition run (es : list Event) (w : World) : World :=
  fold_left (fun w e => step e w) es w.

(** [guard w] tells whether the view lets a press through in [w]. *)
Definition enabled (guard : World -> bool) (e : Event) (w : World)
    : Prop :=
  match e with Press => guard w = true | _ => True end.

Inductive reachable (guard : World -> bool) : World -> Prop :=
| reachable_init st l : reachable guard (initialWorld st l)
| reachable_step e w :
    reachable guard w -> enabled guard e w -> reachable guard (step e w).

End Handlers.

Definition isLoseLife (e : Effect) : bool :=
  match e with LoseLife => true | _ => false end.

Definition isEvaluatorCall (e : Effect) : bool :=
  match e with GenerateImage _ | Timer _ => true | _ => false end.

(** How often the screen has called [loseLife] so far. *)
Definition loseLifeCalls (w : World) : nat :=
  length (List.filter isLoseLife (effects w)).

(** How often the screen has started an evaluator call or a timer. *)
Definition evaluatorCalls (w : World) : nat :=
  length (List.filter isEvaluatorCall (effects w)).

(** The screen is idle with nothing in flight, or generating with
    exactly one call in flight. *)
Definition single_flight (w : World) : Prop :=
  (isGenerating (screen w) = false /\ inFlight w = []) \/
  (isGenerating (screen w) = true /\ exists p, inFlight w = [p]).

(** [handleGenerate] as it is written lets every press through. *)
Definition unguarded (w : World) : bool := true.

(** A view that calls [onGenerate] only while [isGenerating] is false. *)
Definition whileIdle (w : World) : bool := negb (isGenerating (screen w)).

End GameScreen.


(** ** Quantities read off the store *)

Module StoreInvariants.
Import Levels GameStore.




(** Lives stay between 0 and [maxLives], which stays 3. *)
Definition lives_ok (state : GameState) : Prop :=
  0 <= currentLives state <= maxLives state /\ maxLives state = 3.

(** Only levels of the table are completed. *)
Definition completed_known (lp : gmap string LevelProgress) : Prop :=
  forall i p, lp !! i = Some p -> completed p = Some true -> i ∈ ids.

(** The first level of the table has an entry and is unlocked. *)
Definition first_unlocked (lp : gmap string LevelProgress) : Prop :=
  forall level, nth_error LEVELS 0 = Some level ->
    exists p, lp !! id level = Some p /\ isUnlocked p = Some true.

(** The best of [b] and the scores of [tries]. *)
Definition bestAfter (b : Z) (tries : list (string * Z)) : Z :=
  fold_left (fun best t => Z.max best (snd t)) tries b.

(** An entry after an action is no worse than before: still unlocked,
    still completed, best score and attempts not lower. *)
Definition no_worse (p p' : LevelProgress) : Prop :=
  (isUnlocked p = Some true -> isUnlocked p' = Some true) /\
  (completed p = Some true -> completed p' = Some true) /\
  (forall b, bestScore p = Some (Num b) ->
     exists b', bestScore p' = Some (Num b') /\ b <= b') /\
  (forall a, attempts p = Some (Num a) ->
     exists a', attempts p' = Some (Num a') /\ a <= a').

(** [n] calls of [loseLife] in a row. *)
Fixpoint loseLives (n : nat) (state : GameState) : GameState :=
  match n with
  | O => state
  | S n' => loseLife (loseLives n' state)
  end.

(** One [updateLevelProgress(levelId, score)] per element of [tries]
    (time stamp and score), in a row. *)
Definition attemptsOn (levelId : string) (tries : list (string * Z))
    : list Action :=
  map (fun t => UpdateLevelProgress (fst t) levelId (snd t)) tries.

End StoreInvariants.

(** ** The level select screen and its cards: [app/index.tsx],
    [features/levels/components/LevelCard.tsx] *)

Module LevelSelect.
Import Levels GameStore.

(** Truthiness of an optional flag: [undefined] and [false] are falsy. *)
Definition flag (b : option bool) : bool :=
  match b with Some true => true | _ => false end.

(** [Object.values(levelProgress)].  The order here is the one of the
    map, not the insertion order of the object; the counts below do not
    depend on it. *)
Definition values (lp : gmap string LevelProgress) : list LevelProgress :=
  map snd (map_to_list lp).

Definition completedLevels (state : GameState) : nat :=
  length (List.filter (fun p => flag (completed p))
            (values (levelProgress state))).

Definition unlockedLevels (state : GameState) : nat :=
  length (List.filter (fun p => flag (isUnlocked p))
            (values (levelProgress state))).

(** [LevelCard]: [isLocked = !progress.isUnlocked]. *)
Definition isLocked (progress : LevelProgress) : bool :=
  negb (flag (isUnlocked progress)).

(** What a press on the card of [level] does: the card is rendered with
    [levelProgress[item.id]], and reading [isUnlocked] off an absent
    entry throws; a locked card is disabled; an unlocked card pushes the
    route of the game. *)
Inductive Pressed := Throws | Ignored | Navigate (route : string).

Definition pressCard (state : GameState) (level : Level) : Pressed :=
  match levelProgress state !! id level with
  | None => Throws
  | Some progress =>
      if isLocked progress then Ignored
      else Navigate (String.append "/game/" (id level))
  end.

End LevelSelect.

(** ** Prompt tips: [lib/nano.ts] *)

Module Nano.
Import JsString.

(** An ASCII literal as a JavaScript string. *)
Definition ofString (s : string) : jsstring :=
  map (fun c => Z.of_N (Ascii.N_of_ascii c)) (String.list_ascii_of_string s).

(** [text.split('\n')]: the pieces between line feeds, one piece (the
    empty string) for the empty string. *)
Fixpoint splitLines (text : jsstring) : list jsstring :=
  match text with
  | [] => [[]]
  | c :: rest =>
      if c =? 0x0A then [] :: splitLines rest
      else
        match splitLines rest with
        | line :: lines => (c :: line) :: lines
        | [] => [[c]]
        end
  end.

(** The character class [[\d\-\*\.]]. *)
Definition isBullet (c : Z) : bool :=
  ((0x30 <=? c) && (c <=? 0x39)) || (c =? 0x2D) || (c =? 0x2A) || (c =? 0x2E).

Fixpoint dropBullets (line : jsstring) : jsstring :=
  match line with
  | [] => []
  | c :: rest => if isBullet c then dropBullets rest else line
  end.

(** [line.replace(/^[\d\-\*\.]+\s*/, '')]: when the line starts with a
    bullet character, the longest run of them and the white space after
    it go; otherwise the line stays. *)
Definition stripBullet (line : jsstring) : jsstring :=
  match line with
  | [] => []
  | c :: _ => if isBullet c then trimStart (dropBullets line) else line
  end.

Definition parseTips (text : jsstring) : list jsstring :=
  let lines := List.filter (fun line => truthy (trim line)) (splitLines text) in
  firstn 3
    (List.filter (fun line => (0 <? Z.of_nat (length line)))
       (map (fun line => trim (stripBullet line)) lines)).

Inductive OS := Android | OtherOS.

(** How [AICoreModule.generateTips] settles, and how the request to
    Gemini Flash does: with a text, or not (a rejection, or a reply of
    another shape, which throws inside the [try]). *)
Inductive NanoReply := NanoText (text : jsstring) | NanoRejects.
Inductive CloudReply := CloudText (text : jsstring) | CloudFails.

Inductive Source := nano | cloud.

Record PromptTips := {
  suggestions : list jsstring;
  source : Source;
}.

Inductive Call := CallNano (prompt : jsstring) | CallCloud (prompt : jsstring).

Inductive Outcome := Returns (tips : PromptTips) | ThrowsNoKey.

Definition defaultTips : list jsstring :=
  [ofString "Add more details"; ofString "Specify a style";
   ofString "Describe the lighting"].

(** [!API_KEY]: the key is falsy when it is not set or empty. *)
Definition hasKey (apiKey : option jsstring) : bool :=
  match apiKey with Some key => truthy key | None => false end.

(** [generateTipsCloud]: the outcome and the calls made. *)
Definition generateTipsCloud (apiKey : option jsstring) (reply : CloudReply)
    (userPrompt : jsstring) : Outcome * list Call :=
  if negb (hasKey apiKey) then (ThrowsNoKey, [])
  else
    match reply with
    | CloudText text =>
        (Returns {| suggestions := parseTips text; source := cloud |},
         [CallCloud userPrompt])
    | CloudFails =>
        (Returns {| suggestions := defaultTips; source := cloud |},
         [CallCloud userPrompt])
    end.

Definition generatePromptTips (os : OS) (nanoReply : NanoReply)
    (apiKey : option jsstring) (cloudReply : CloudReply)
    (userPrompt : jsstring) : Outcome * list Call :=
  match os with
  | Android =>
      match nanoReply with
      | NanoText tips =>
          (Returns {| suggestions := parseTips tips; source := nano |},
           [CallNano userPrompt])
      | NanoRejects =>
          let '(outcome, calls) :=
            generateTipsCloud apiKey cloudReply userPrompt in
          (outcome, CallNano userPrompt :: calls)
      end
  | OtherOS => generateTipsCloud apiKey cloudReply userPrompt
  end.

Definition isCallNano (c : Call) : bool :=
  match c with CallNano _ => true | CallCloud _ => false end.

Definition isCallCloud (c : Call) : bool :=
  match c with CallCloud _ => true | CallNano _ => false end.

(** A string [trim] leaves as it is: empty, or with a first and a last
    code unit that are not white space. *)
Definition trimmed (s : jsstring) : Prop := trim s = s.

End Nano.

(** ** Image generation with its cache: [lib/gemini.ts] *)

Module Gemini.
Import JsString.

Inductive AspectRatio := ratio_1_1 | ratio_16_9 | ratio_9_16.

Record GenerateImageRequest := {
  prompt : jsstring;
  aspectRatio : option AspectRatio;
  numberOfImages : option Z;
}.

Definition ratioText (r : AspectRatio) : jsstring :=
  match r with
  | ratio_1_1 => Nano.ofString "1:1"
  | ratio_16_9 => Nano.ofString "16:9"
  | ratio_9_16 => Nano.ofString "9:16"
  end.

(** [request.aspectRatio || '1:1']. *)
Definition effectiveRatio (request : GenerateImageRequest) : AspectRatio :=
  match aspectRatio request with Some r => r | None => ratio_1_1 end.

(** [request.numberOfImages || 1]: 0 is falsy. *)
Definition sampleCount (request : GenerateImageRequest) : Z :=
  match numberOfImages request with
  | Some n => if n =? 0 then 1 else n
  | None => 1
  end.

(** The template [`${request.prompt}-${request.aspectRatio || '1:1'}`]. *)
Definition cacheKey (request : GenerateImageRequest) : jsstring :=
  prompt request ++ [0x2D] ++ ratioText (effectiveRatio request).

(** The first prediction of a reply, as far as the code reads it. *)
Record Prediction := {
  bytesBase64Encoded : option jsstring;
  mimeType : option jsstring;
  revisedPrompt : option jsstring;
}.

(** How the request settles: with a reply whose first prediction is
    there or not (reading it when it is not throws a [TypeError]), or
    with an axios error that carries the message of the API, if any, and
    its own. *)
Inductive Reply :=
| Fulfilled (first : option Prediction)
| AxiosError (apiMessage : option jsstring) (message : jsstring).

Inductive Thrown :=
| KeyNotSet
| GenerationFailed (message : jsstring)
| TypeError.

Inductive Outcome :=
| Returns (imageUrl : option jsstring) (revised : option jsstring)
    (cached : bool)
| Throws (error : Thrown).

(** What the request carries besides the prompt. *)
Record Posted := {
  postedPrompt : jsstring;
  postedSampleCount : Z;
  postedRatio : jsstring;
}.

(** [a || b] for optional strings: the empty string is falsy. *)
Definition orElse (a : option jsstring) (b : jsstring) : jsstring :=
  match a with
  | Some s => if truthy s then s else b
  | None => b
  end.

Definition imageUrlOf (p : Prediction) : option jsstring :=
  match bytesBase64Encoded p with
  | Some b =>
      if truthy b then Some (Nano.ofString "data:image/png;base64," ++ b)
      else mimeType p
  | None => mimeType p
  end.

(** [generateImage].  The cache maps a key to the image URL stored
    under it, which is [undefined] ([None]) when the reply had neither
    bytes nor a mime type.  The result is the outcome, the cache
    afterwards and the request posted, if one was. *)
Definition generateImage (apiKey : option jsstring)
    (request : GenerateImageRequest) (reply : Reply)
    (imageCache : gmap (list Z) (option jsstring))
    : Outcome * gmap (list Z) (option jsstring) * option Posted :=
  if negb (Nano.hasKey apiKey) then (Throws KeyNotSet, imageCache, None)
  else
    match imageCache !! cacheKey request with
    | Some imageUrl => (Returns imageUrl None true, imageCache, None)
    | None =>
        let posted :=
          {| postedPrompt := prompt request;
             postedSampleCount := sampleCount request;
             postedRatio := ratioText (effectiveRatio request) |} in
        match reply with
        | Fulfilled (Some p) =>
            (Returns (imageUrlOf p) (revisedPrompt p) false,
             <[cacheKey request := imageUrlOf p]> imageCache,
             Some posted)
        | Fulfilled None => (Throws TypeError, imageCache, Some posted)
        | AxiosError apiMessage message =>
            (Throws
               (GenerationFailed
                  (Nano.ofString "Image generation failed: "
                   ++ orElse apiMessage message)),
             imageCache, Some posted)
        end
    end.

Definition clearImageCache (imageCache : gmap (list Z) (option jsstring))
    : gmap (list Z) (option jsstring) := ∅.

End Gemini.

(** ** The first game screen: [app/game/[id].tsx] with the image
    services, the caller of [updateLevelProgress] and [loseLife] *)

Module GameScreenV1.
Import JsString.

(** The [useState] cells of the component. *)
Record Screen := {
  userPrompt : jsstring;
  generatedImageUrl : option string;
  isGenerating : bool;
  loadingMessage : string;
  showResult : bool;
  score : Z;
  feedback : string;
  matchedElements : list string;
  tips : list jsstring;
}.

(** How [generateImage] and [compareImages] settle. *)
Inductive GenerateReply :=
| Generated (imageUrl : string)
| GenerateThrows (message : string).

Inductive CompareReply :=
| Compared (score : Z) (feedback : string) (matchedElements : list string)
| CompareThrows (message : string).

(** The text of the failure alert: [error.message || 'Please try
    again.'], or the message of a [TypeError] of the engine. *)
Inductive AlertText := Message (text : string) | EngineMessage.

Inductive Effect :=
| AlertPromptTooShort
| AlertGenerationFailed (text : AlertText)
| AlertGameOver
| CallGenerateImage (prompt : jsstring)
| CallCompareImages (imageUrl : string)
| CallGenerateTips (prompt : jsstring).

Record World := {
  screen : Screen;
  store : GameStore.GameState;
  effects : list Effect;
}.

Definition onScreen (f : Screen -> Screen) (w : World) : World :=
  {| screen := f (screen w); store := store w; effects := effects w |}.

Definition setStore (st : GameStore.GameState) (w : World) : World :=
  {| screen := screen w; store := st; effects := effects w |}.

Definition emit (e : Effect) (w : World) : World :=
  {| screen := screen w; store := store w; effects := effects w ++ [e] |}.

Definition setUserPrompt (v : jsstring) (s : Screen) : Screen :=
  {| userPrompt := v; generatedImageUrl := generatedImageUrl s;
     isGenerating := isGenerating s; loadingMessage := loadingMessage s;
     showResult := showResult s; score := score s; feedback := feedback s;
     matchedElements := matchedElements s; tips := tips s |}.

Definition setGeneratedImageUrl (v : option string) (s : Screen) : Screen :=
  {| userPrompt := userPrompt s; generatedImageUrl := v;
     isGenerating := isGenerating s; loadingMessage := loadingMessage s;
     showResult := showResult s; score := score s; feedback := feedback s;
     matchedElements := matchedElements s; tips := tips s |}.

Definition setIsGenerating (v : bool) (s : Screen) : Screen :=
  {| userPrompt := userPrompt s; generatedImageUrl := generatedImageUrl s;
     isGenerating := v; loadingMessage := loadingMessage s;
     showResult := showResult s; score := score s; feedback := feedback s;
     matchedElements := matchedElements s; tips := tips s |}.

Definition setLoadingMessage (v : string) (s : Screen) : Screen :=
  {| userPrompt := userPrompt s; generatedImageUrl := generatedImageUrl s;
     isGenerating := isGenerating s; loadingMessage := v;
     showResult := showResult s; score := score s; feedback := feedback s;
     matchedElements := matchedElements s; tips := tips s |}.

Definition setShowResult (v : bool) (s : Screen) : Screen :=
  {| userPrompt := userPrompt s; generatedImageUrl := generatedImageUrl s;
     isGenerating := isGenerating s; loadingMessage := loadingMessage s;
     showResult := v; score := score s; feedback := feedback s;
     matchedElements := matchedElements s; tips := tips s |}.

Definition setScore (v : Z) (s : Screen) : Screen :=
  {| userPrompt := userPrompt s; generatedImageUrl := generatedImageUrl s;
     isGenerating := isGenerating s; loadingMessage := loadingMessage s;
     showResult := showResult s; score := v; feedback := feedback s;
     matchedElements := matchedElements s; tips := tips s |}.

Definition setFeedback (v : string) (s : Screen) : Screen :=
  {| userPrompt := userPrompt s; generatedImageUrl := generatedImageUrl s;
     isGenerating := isGenerating s; loadingMessage := loadingMessage s;
     showResult := showResult s; score := score s; feedback := v;
     matchedElements := matchedElements s; tips := tips s |}.

Definition setMatchedElements (v : list string) (s : Screen) : Screen :=
  {| userPrompt := userPrompt s; generatedImageUrl := generatedImageUrl s;
     isGenerating := isGenerating s; loadingMessage := loadingMessage s;
     showResult := showResult s; score := score s; feedback := feedback s;
     matchedElements := v; tips := tips s |}.

Definition setTips (v : list jsstring) (s : Screen) : Screen :=
  {| userPrompt := userPrompt s; generatedImageUrl := generatedImageUrl s;
     isGenerating := isGenerating s; loadingMessage := loadingMessage s;
     showResult := showResult s; score := score s; feedback := feedback s;
     matchedElements := matchedElements s; tips := v |}.

Section Handlers.
(** The level of the screen, [getLevelById(id)]. *)
Variable level : Levels.Level.

(** [error.message || 'Please try again.'] *)
Definition alertText (message : string) : AlertText :=
  if String.eqb message EmptyString then Message "Please try again."
  else Message message.

(** The [catch] block with the alert text, and the [finally] block. *)
Definition catch (text : AlertText) (w : World) : World :=
  emit (AlertGenerationFailed text) w.

Definition finally (w : World) : World :=
  onScreen (setLoadingMessage EmptyString) (onScreen (setIsGenerating false) w).

(** [handleGenerate] up to its first [await]; the flag tells whether the
    call of [generateImage] was made. *)
Definition handleGenerate (w : World) : World * bool :=
  if Z.of_nat (length (trim (userPrompt (screen w)))) <? 10 then
    (emit AlertPromptTooShort w, false)
  else
    let w := onScreen (setIsGenerating true) w in
    let w := onScreen (setLoadingMessage "Initializing AI...") w in
    let w := onScreen (setLoadingMessage "Generating image...") w in
    (emit (CallGenerateImage (userPrompt (screen w))) w, true).

(** From the first [await] to the second; the flag tells whether the
    call of [compareImages] was made. *)
Definition afterGenerate (reply : GenerateReply) (w : World) : World * bool :=
  match reply with
  | Generated imageUrl =>
      let w := onScreen (setGeneratedImageUrl (Some imageUrl)) w in
      let w := onScreen (setLoadingMessage "Analyzing similarity...") w in
      (emit (CallCompareImages imageUrl) w, true)
  | GenerateThrows message => (finally (catch (alertText message) w), false)
  end.

(** From the second [await] on.  [now] is the time stamp that
    [updateLevelProgress] reads. *)
Definition afterCompare (now : string) (reply : CompareReply) (w : World)
    : World :=
  match reply with
  | Compared s f m =>
      let w := onScreen (setScore s) w in
      let w := onScreen (setFeedback f) w in
      let w := onScreen (setMatchedElements m) w in
      let w := onScreen (setShowResult true) w in
      match GameStore.updateLevelProgress now (Levels.id level) s (store w) with
      | Some st =>
          let w := setStore st w in
          if s <? Levels.passingScore level
          then finally (setStore (GameStore.loseLife (store w)) w)
          else finally w
      | None => finally (catch EngineMessage w)
      end
  | CompareThrows message => finally (catch (alertText message) w)
  end.

(** [handleResultClose]: [currentLives] is the value the component read
    from the store. *)
Definition handleResultClose (w : World) : World :=
  let w := onScreen (setShowResult false) w in
  if GameStore.currentLives (store w) =? 0 then emit AlertGameOver w else w.

Definition handleRetry (w : World) : World :=
  let w := onScreen (setShowResult false) w in
  let w := onScreen (setUserPrompt []) w in
  let w := onScreen (setGeneratedImageUrl None) w in
  onScreen (setTips []) w.

(** [handlePromptChange]: tips are asked for when the text has more than
    15 code units; a throw of [generatePromptTips] is logged and leaves
    the tips as they were. *)
Definition handlePromptChange (os : Nano.OS) (nanoReply : Nano.NanoReply)
    (apiKey : option jsstring) (cloudReply : Nano.CloudReply)
    (text : jsstring) (w : World) : World :=
  let w := onScreen (setUserPrompt text) w in
  if 15 <? Z.of_nat (length text) then
    let w := emit (CallGenerateTips text) w in
    match fst (Nano.generatePromptTips os nanoReply apiKey cloudReply text) with
    | Nano.Returns tipsResult =>
        onScreen (setTips (Nano.suggestions tipsResult)) w
    | Nano.ThrowsNoKey => w
    end
  else onScreen (setTips []) w.

End Handlers.

End GameScreenV1.

(** ** Image comparison: [lib/scoring.ts] *)

Module Scoring.
Import JsString.


(** [text.split(sep)] for a separator of one code unit. *)
Fixpoint splitOn (sep : Z) (text : jsstring) : list jsstring :=
  match text with
  | [] => [[]]
  | c :: rest =>
      if c =? sep then [] :: splitOn sep rest
      else
        match splitOn sep rest with
        | piece :: pieces => (c :: piece) :: pieces
        | [] => [[c]]
        end
  end.

Fixpoint startsWith (text prefix : jsstring) : bool :=
  match prefix, text with
  | [], _ => true
  | p :: prefix', c :: text' => (c =? p) && startsWith text' prefix'
  | _ :: _, [] => false
  end.

(** [imageToBase64]: a data URI gives what follows its first comma (up
    to the next one; [undefined] when it has no comma), any other URL is
    fetched. *)
Inductive Base64 := Inline (data : option jsstring) | Fetched (url : jsstring).

Definition imageToBase64 (imageUrl : jsstring) : Base64 :=
  if startsWith imageUrl (Nano.ofString "data:image")
  then Inline (nth_error (splitOn 0x2C imageUrl) 1)
  else Fetched imageUrl.



End Scoring.

(** ** The placeholder evaluation of the second game screen *)

Module PlaceholderScores.

(** The raw score that [handleGenerate] assigns after its [await]:
    [Math.floor(Math.random() * 30) + 70] for an image level, 100 for a
    code level, 85 for a copywriting level. *)
Definition rawScoreOf (p : GameScreen.Pending) (draw : Z) : Z :=
  match p with
  | GameScreen.AwaitImage => draw + 70
  | GameScreen.AwaitCode => 100
  | GameScreen.AwaitCopywriting => 85
  end.

End PlaceholderScores.

(** * Properties *)

(** ** The level table *)

Section LevelTable.
Import Levels.

Lemma hasId_true i l : hasId i l = true <-> id l = i.
Proof. unfold hasId. apply String.eqb_eq. Qed.

Lemma hasId_false i l : hasId i l = false <-> id l <> i.
Proof. unfold hasId. apply String.eqb_neq. Qed.

Lemma findIndex_lower {A} (p : A -> bool) l : -1 <= findIndex p l.
Proof.
  induction l as [|x l IH]; simpl; [lia|].
  destruct (p x); [lia|]. destruct (findIndex p l <? 0) eqn:E; lia.
Qed.

Lemma index_cons_succ {A} (x : A) l i :
  0 <= i -> index (x :: l) (i + 1) = index l i.
Proof.
  intros Hi. unfold index.
  destruct (i + 1 <? 0) eqn:E1; [lia|].
  destruct (i <? 0) eqn:E2; [lia|].
  replace (Z.to_nat (i + 1)) with (S (Z.to_nat i)) by lia. reflexivity.
Qed.

Lemma index_In {A} (l : list A) i x : index l i = Some x -> In x l.
Proof.
  unfold index. destruct (i <? 0); [discriminate|]. apply nth_error_In.
Qed.

(** [find] and [findIndex] agree: the element found sits at the index
    found. *)
Lemma find_findIndex {A} (p : A -> bool) l x :
  find p l = Some x ->
  0 <= findIndex p l /\ index l (findIndex p l) = Some x.
Proof.
  induction l as [|y l IH]; simpl; [discriminate|].
  destruct (p y) eqn:Hp.
  - intros [= ->]. split; [lia | reflexivity].
  - intros Hf. destruct (IH Hf) as [H0 Hi].
    destruct (findIndex p l <? 0) eqn:E; [lia|].
    split; [lia|]. rewrite index_cons_succ; assumption.
Qed.

Lemma find_hasId_id i l level : find (hasId i) l = Some level -> id level = i.
Proof.
  intros H. apply find_some in H as [_ H]. apply hasId_true. exact H.
Qed.

Lemma find_hasId_In i l :
  In i (map id l) -> exists level, find (hasId i) l = Some level.
Proof.
  induction l as [|x l IH]; simpl; [tauto|].
  intros [Hx | Hin].
  - apply hasId_true in Hx. rewrite Hx. eauto.
  - destruct (hasId i x); eauto.
Qed.

(** In a table without duplicate ids, the element after the first one
    with id [i] has another id. *)
Lemma next_id_ne_gen i l next :
  List.NoDup (map id l) ->
  index l (findIndex (hasId i) l + 1) = Some next -> id next <> i.
Proof.
  induction l as [|x l IH]; simpl; intros Hnd Hnext.
  - discriminate.
  - inversion Hnd as [|? ? Hnotin Hnd']; subst.
    destruct (hasId i x) eqn:Hx.
    + apply hasId_true in Hx. subst i.
      rewrite index_cons_succ in Hnext by lia.
      apply index_In in Hnext. intros Heq. apply Hnotin.
      rewrite <- Heq. apply in_map. exact Hnext.
    + pose proof (findIndex_lower (hasId i) l) as Hlow.
      destruct (findIndex (hasId i) l <? 0) eqn:E.
      * simpl in Hnext. injection Hnext as <-.
        apply hasId_false. exact Hx.
      * rewrite index_cons_succ in Hnext by lia. apply IH; assumption.
Qed.

Lemma ids_NoDup : List.NoDup ids.
Proof.
  apply NoDup_ListNoDup. apply (bool_decide_unpack _). vm_compute. reflexivity.
Qed.

Lemma getNextLevel_id_ne levelId next :
  getNextLevel levelId = Some next -> id next <> levelId.
Proof. apply next_id_ne_gen. exact ids_NoDup. Qed.

Lemma getLevelById_id levelId level :
  getLevelById levelId = Some level -> id level = levelId.
Proof. apply find_hasId_id. Qed.

Lemma getLevelById_known levelId :
  levelId ∈ ids -> exists level, getLevelById levelId = Some level.
Proof. intros H. apply find_hasId_In. apply list_elem_of_In. exact H. Qed.

End LevelTable.

(** ** The game store *)

Section StoreFacts.
Import Levels GameStore.

#[local] Arguments LEVELS : simpl never.

Lemma entry_ok_default k level : entry_ok (defaultEntry k level).
Proof. unfold entry_ok, defaultEntry; simpl. repeat split; eauto. Qed.

Lemma entry_ok_unlock p : entry_ok p -> entry_ok (unlock p).
Proof. unfold entry_ok, unlock; simpl; tauto. Qed.

Lemma fillProgress_other levels : forall n lp (i : string),
  ~ In i (map id levels) -> fillProgress n levels lp !! i = lp !! i.
Proof.
  induction levels as [|x rest IH]; cbn [fillProgress map];
    intros n lp i Hi; [reflexivity|].
  rewrite IH by (cbn in Hi; tauto). cbn in Hi. apply lookup_insert_ne. tauto.
Qed.

Lemma fillProgress_known levels : forall n lp (i : string),
  In i (map id levels) ->
  exists k level, fillProgress n levels lp !! i = Some (defaultEntry k level).
Proof.
  induction levels as [|x rest IH]; cbn [fillProgress map];
    intros n lp i Hi; [destruct Hi|].
  destruct (in_dec String.string_dec i (map id rest)) as [Hin | Hout].
  - apply IH. exact Hin.
  - destruct Hi as [Hx | Hin]; [|tauto].
    rewrite fillProgress_other by exact Hout.
    subst i. rewrite lookup_insert_eq. eauto.
Qed.

Lemma createDefaultProgress_ok : progress_ok createDefaultProgress.
Proof.
  intros i Hi. apply list_elem_of_In in Hi.
  destruct (fillProgress_known LEVELS 0%nat ∅ i Hi) as (k & level & H).
  exists (defaultEntry k level). split; [exact H | apply entry_ok_default].
Qed.

Lemma progress_ok_insert (lp : gmap string LevelProgress) j p :
  progress_ok lp -> (j ∈ ids -> entry_ok p) -> progress_ok (<[j := p]> lp).
Proof.
  intros Hok Hp i Hi. destruct (decide (j = i)) as [-> | Hne].
  - rewrite lookup_insert_eq. eauto.
  - rewrite lookup_insert_ne by exact Hne. apply Hok, Hi.
Qed.

Lemma progress_ok_unlock (lp : gmap string LevelProgress) j :
  progress_ok lp -> j ∈ ids -> entry_ok (unlock (spread (lp !! j))).
Proof.
  intros Hok Hj. destruct (Hok j Hj) as (p & -> & Hp).
  apply entry_ok_unlock, Hp.
Qed.

(** What [updateLevelProgress] returns when it does not throw. *)
Lemma updateLevelProgress_inv now levelId score state state' :
  updateLevelProgress now levelId score state = Some state' ->
  exists p level,
    levelProgress state !! levelId = Some p /\
    getLevelById levelId = Some level /\
    currentLives state' = currentLives state /\
    maxLives state' = maxLives state /\
    achievements state' = achievements state /\
    levelProgress state' =
      unlockNext (passingScore level <=? score) (getNextLevel levelId)
        (levelProgress state)
        (<[levelId := recorded now score (passingScore level <=? score) p]>
           (levelProgress state)).
Proof.
  unfold updateLevelProgress. intros H.
  apply bind_Some in H as (p & Hp & H).
  apply bind_Some in H as (level & Hl & H).
  cbv zeta in H. apply (inj Some) in H. subst state'. exists p, level.
  cbn [currentLives maxLives achievements levelProgress].
  unfold getLevelById, getNextLevel.
  repeat split; try assumption; reflexivity.
Qed.

Lemma updateLevelProgress_Some now levelId score state p level :
  levelProgress state !! levelId = Some p ->
  getLevelById levelId = Some level ->
  exists state', updateLevelProgress now levelId score state = Some state'.
Proof.
  unfold updateLevelProgress, getLevelById. intros -> ->. eexists.
  reflexivity.
Qed.

Lemma entry_ok_recorded now score isCompleted p :
  entry_ok p -> entry_ok (recorded now score isCompleted p).
Proof.
  intros ((b & Hb) & (a & Ha) & (c & Hc)).
  unfold entry_ok, recorded; cbn. rewrite Hb, Ha, Hc. cbn.
  repeat split; eauto. destruct isCompleted; eauto.
Qed.

Lemma updateLevelProgress_ok now levelId score state state' :
  progress_ok (levelProgress state) ->
  updateLevelProgress now levelId score state = Some state' ->
  progress_ok (levelProgress state').
Proof.
  intros Hok H.
  apply updateLevelProgress_inv in H
    as (p & level & Hp & _ & _ & _ & _ & ->).
  assert (Hrec : progress_ok
    (<[levelId := recorded now score (passingScore level <=? score) p]>
       (levelProgress state))).
  { apply progress_ok_insert; [exact Hok|]. intros Hin.
    destruct (Hok levelId Hin) as (p' & Hp' & Hentry).
    rewrite Hp in Hp'. injection Hp' as <-.
    apply entry_ok_recorded, Hentry. }
  unfold unlockNext. destruct (getNextLevel levelId) as [next|]; [|exact Hrec].
  destruct (passingScore level <=? score); [|exact Hrec].
  apply progress_ok_insert; [exact Hrec|].
  apply progress_ok_unlock, Hok.
Qed.

Lemma dispatch_ok a state :
  progress_ok (levelProgress state) ->
  progress_ok (levelProgress (dispatch a state)).
Proof.
  intros Hok. destruct a as [|lid|now lid score| | | |ach]; cbn [dispatch];
    try exact Hok.
  - unfold initializeProgress. case_bool_decide; [|exact Hok].
    apply createDefaultProgress_ok.
  - unfold unlockLevel, set_levelProgress; cbn [levelProgress].
    apply progress_ok_insert; [exact Hok|]. apply progress_ok_unlock, Hok.
  - destruct (updateLevelProgress now lid score state) eqn:E;
      [|exact Hok].
    eapply updateLevelProgress_ok; eassumption.
  - apply createDefaultProgress_ok.
Qed.

(** Every state the store reaches from its initial state holds a full
    entry for every level of the table. *)
Lemma run_ok actions : forall state,
  progress_ok (levelProgress state) ->
  progress_ok (levelProgress (run actions state)).
Proof.
  unfold run. induction actions as [|a rest IH]; simpl; intros state Hok.
  - exact Hok.
  - apply IH, dispatch_ok, Hok.
Qed.

Lemma reachable_ok actions :
  progress_ok (levelProgress (run actions initialState)).
Proof. apply run_ok. exact createDefaultProgress_ok. Qed.

Lemma loseLife_floor state :
  0 <= currentLives (loseLife state) /\
  (1 <= currentLives state ->
   currentLives (loseLife state) = currentLives state - 1) /\
  (currentLives state = 0 -> currentLives (loseLife state) = 0) /\
  maxLives (loseLife state) = maxLives state.
Proof. unfold loseLife; simpl. repeat split; lia. Qed.

End StoreFacts.

Section StoreClaims.
Import Levels GameStore.

(** C5.  Recording an attempt on a level of the table whose entry is
    in the store sets the entry's [bestScore] to the maximum of the old
    best and the score, adds one to [attempts], sets [completed] to the
    old flag or [score >= passingScore] (so a completed level stays
    completed), and for the next level of the table: unlocks its entry
    when [score >= passingScore] and leaves it as it was otherwise. *)
Theorem updateLevelProgress_records now levelId score state level p b a c :
  getLevelById levelId = Some level ->
  levelProgress state !! levelId = Some p ->
  bestScore p = Some (Num b) ->
  attempts p = Some (Num a) ->
  completed p = Some c ->
  exists state' p',
    updateLevelProgress now levelId score state = Some state' /\
    levelProgress state' !! levelId = Some p' /\
    bestScore p' = Some (Num (Z.max b score)) /\
    attempts p' = Some (Num (a + 1)) /\
    completed p' = Some (c || (passingScore level <=? score)) /\
    (c = true -> completed p' = Some true) /\
    (forall next, getNextLevel levelId = Some next ->
       if passingScore level <=? score
       then exists q,
              levelProgress state' !! id next = Some q /\
              q = unlock (spread (levelProgress state !! id next)) /\
              isUnlocked q = Some true
       else levelProgress state' !! id next
            = levelProgress state !! id next).
Proof.
  intros Hlevel Hp Hb Ha Hc.
  destruct (updateLevelProgress_Some now levelId score state p level Hp Hlevel)
    as [state' Hrun].
  exists state', (recorded now score (passingScore level <=? score) p).
  split; [exact Hrun|].
  apply updateLevelProgress_inv in Hrun
    as (p0 & level0 & Hp0 & Hl0 & _ & _ & _ & Hlp).
  rewrite Hp in Hp0. injection Hp0 as <-.
  rewrite Hlevel in Hl0. injection Hl0 as <-.
  rewrite Hlp. unfold unlockNext.
  split.
  { destruct (getNextLevel levelId) as [next|] eqn:Hnext.
    - destruct (passingScore level <=? score).
      + rewrite lookup_insert_ne by (apply getNextLevel_id_ne, Hnext).
        apply lookup_insert_eq.
      + apply lookup_insert_eq.
    - apply lookup_insert_eq. }
  unfold recorded; cbn [bestScore attempts completed].
  rewrite Hb, Ha, Hc. cbn [toNumber Math_max add].
  repeat split.
  - destruct (passingScore level <=? score), c; reflexivity.
  - intros ->. destruct (passingScore level <=? score); reflexivity.
  - intros next Hnext. rewrite Hnext.
    destruct (passingScore level <=? score).
    + eexists. split; [apply lookup_insert_eq|]. split; reflexivity.
    + apply lookup_insert_ne. intros Heq.
      exact (getNextLevel_id_ne levelId next Hnext (eq_sym Heq)).
Qed.

(** C10.  A call [updateLevelProgress(levelId, score)], whether it
    throws or not, leaves the entry of every level other than [levelId]
    and the next level of the table as it was, and does not change
    [currentLives], [maxLives] or [achievements]. *)
Theorem updateLevelProgress_frame now levelId score state other :
  other <> levelId ->
  (forall next, getNextLevel levelId = Some next -> other <> id next) ->
  let state' := dispatch (UpdateLevelProgress now levelId score) state in
  levelProgress state' !! other = levelProgress state !! other /\
  currentLives state' = currentLives state /\
  maxLives state' = maxLives state /\
  achievements state' = achievements state.
Proof.
  intros Hne Hnext. cbn [dispatch].
  destruct (updateLevelProgress now levelId score state) as [state'|] eqn:E;
    cbv zeta; [|repeat split].
  apply updateLevelProgress_inv in E
    as (p & level & _ & _ & Hlives & Hmax & Hach & Hlp).
  repeat split; try assumption.
  rewrite Hlp. unfold unlockNext.
  destruct (getNextLevel levelId) as [next|] eqn:Hn.
  - destruct (passingScore level <=? score).
    + rewrite lookup_insert_ne
        by (intros Heq; exact (Hnext next eq_refl (eq_sym Heq))).
      apply lookup_insert_ne. congruence.
    + apply lookup_insert_ne. congruence.
  - apply lookup_insert_ne. congruence.
Qed.

End StoreClaims.

Lemma updateLevelProgress_records_witness :
  exists state' p',
    GameStore.updateLevelProgress "2026-01-01T00:00:00.000Z" "easy-001" 70
      GameStore.initialState = Some state' /\
    GameStore.levelProgress state' !! "easy-001"%string = Some p' /\
    GameStore.bestScore p' = Some (GameStore.Num 70) /\
    GameStore.completed p' = Some true.
Proof.
  destruct (updateLevelProgress_records "2026-01-01T00:00:00.000Z" "easy-001"
              70 GameStore.initialState
              {| Levels.id := "easy-001"; Levels.difficulty := Levels.easy;
                 Levels.passingScore := 60;
                 Levels.hints := ["Think about the time of day";
                                  "What natural setting do you see?";
                                  "Describe the colors in the sky"] |}
              {| GameStore.levelId := Some "easy-001"%string;
                 GameStore.isUnlocked := Some true;
                 GameStore.bestScore := Some (GameStore.Num 0);
                 GameStore.attempts := Some (GameStore.Num 0);
                 GameStore.completed := Some false;
                 GameStore.lastPlayedAt := None |}
              0 0 false)
    as (state' & p' & H1 & H2 & H3 & _ & H5 & _);
    [vm_compute; reflexivity | vm_compute; reflexivity
    | reflexivity | reflexivity | reflexivity |].
  exists state', p'. repeat split; assumption.
Defined.

Lemma updateLevelProgress_frame_witness :
  GameStore.levelProgress
    (GameStore.dispatch
       (GameStore.UpdateLevelProgress "2026-01-01T00:00:00.000Z" "easy-001" 70)
       GameStore.initialState) !! "hard-011"%string
  = GameStore.levelProgress GameStore.initialState !! "hard-011"%string.
Proof.
  apply (updateLevelProgress_frame "2026-01-01T00:00:00.000Z" "easy-001" 70
           GameStore.initialState "hard-011").
  - discriminate.
  - intros next H. vm_compute in H. injection H as <-. discriminate.
Defined.

(** ** The penalty calculator *)

Section PenaltyClaims.
Import PenaltyCalculator.

Lemma penaltyPerHintOf_pos d : 0 < penaltyPerHintOf d.
Proof. destruct d; reflexivity. Qed.

Lemma clamp_id x lo hi : lo <= x <= hi -> clamp x lo hi = x.
Proof. unfold clamp. lia. Qed.

Lemma clamp_range x lo hi : lo <= hi -> lo <= clamp x lo hi <= hi.
Proof. unfold clamp. lia. Qed.

(** C1.  For a raw score from 0 to 100, any difficulty and any number
    of hints used, the penalty is
    [min(hintsUsed * penaltyPerHint, rawScore)], the final score is
    [clamp(rawScore - penaltyPoints, 0, 100)], it lies between 0 and
    100 and it is at most the raw score. *)
Theorem compute_bounds rawScore passingScore difficulty hintsUsed :
  0 <= rawScore <= 100 ->
  0 <= hintsUsed ->
  let b := compute rawScore passingScore difficulty hintsUsed in
  penaltyPoints b = Z.min (hintsUsed * penaltyPerHint b) rawScore /\
  finalScore b = clamp (rawScore - penaltyPoints b) 0 100 /\
  0 <= finalScore b <= 100 /\
  finalScore b <= rawScore.
Proof.
  intros Hraw Hhints b. subst b. unfold compute; cbn.
  pose proof (penaltyPerHintOf_pos difficulty) as Hpos.
  assert (0 <= hintsUsed * penaltyPerHintOf difficulty) by nia.
  split; [reflexivity|]. split; [reflexivity|].
  rewrite clamp_id by lia. lia.
Qed.

(** C4.  With no hint used, the final score of a raw score from 0 to
    100 is the raw score. *)
Theorem compute_no_hints rawScore passingScore difficulty :
  0 <= rawScore <= 100 ->
  finalScore (compute rawScore passingScore difficulty 0) = rawScore.
Proof.
  intros Hraw. unfold compute; cbn [finalScore].
  rewrite Z.mul_0_l. rewrite clamp_id by lia. lia.
Qed.

(** The final score does not grow with the number of hints. *)
Lemma compute_monotone rawScore passingScore difficulty h1 h2 :
  h1 <= h2 ->
  finalScore (compute rawScore passingScore difficulty h2)
  <= finalScore (compute rawScore passingScore difficulty h1).
Proof.
  intros Hle. unfold compute, clamp; cbn.
  pose proof (penaltyPerHintOf_pos difficulty) as Hpos.
  assert (h1 * penaltyPerHintOf difficulty
          <= h2 * penaltyPerHintOf difficulty) by nia.
  lia.
Qed.

End PenaltyClaims.

Lemma compute_bounds_witness :
  let b := PenaltyCalculator.compute 20 60 Levels.easy 10 in
  PenaltyCalculator.penaltyPoints b = 20 /\ PenaltyCalculator.finalScore b = 0.
Proof.
  destruct (compute_bounds 20 60 Levels.easy 10) as (H1 & H2 & _);
    [lia | lia |].
  split; [exact H1 | exact H2].
Defined.

Lemma compute_no_hints_witness :
  PenaltyCalculator.finalScore (PenaltyCalculator.compute 90 60 Levels.hard 0)
  = 90.
Proof. apply (compute_no_hints 90 60 Levels.hard). lia. Defined.

(** ** The hint ledger *)

Section LedgerClaims.
Import HintLedger.
Variable getLevel : string -> option Levels.Level.

Lemma existsb_eqb_In i l : existsb (Nat.eqb i) l = true <-> In i l.
Proof.
  rewrite existsb_exists. split.
  - intros (x & Hx & Heq). apply Nat.eqb_eq in Heq. subst x. exact Hx.
  - intros Hi. exists i. split; [exact Hi | apply Nat.eqb_refl].
Qed.

Lemma revealed_below i k :
  existsb (Nat.eqb i) (rev (seq 0 k)) = (i <? k)%nat.
Proof.
  apply eq_true_iff_eq. rewrite existsb_eqb_In, <- in_rev, in_seq.
  rewrite Nat.ltb_lt. lia.
Qed.

(** The first index from [s] on that is not below [k]. *)
Lemma find_not_below k : forall m s,
  find (fun i => negb (i <? k)%nat) (seq s m)
  = if (Nat.max s k <? s + m)%nat then Some (Nat.max s k) else None.
Proof.
  induction m as [|m IH]; intros s; cbn [seq find].
  - destruct (Nat.ltb_spec (Nat.max s k) (s + 0)); [lia | reflexivity].
  - destruct (Nat.ltb_spec s k) as [Hlt | Hge]; cbn [negb].
    + rewrite IH.
      replace (Nat.max (S s) k) with (Nat.max s k) by lia.
      replace (S s + m)%nat with (s + S m)%nat by lia. reflexivity.
    + replace (Nat.max s k) with s by lia.
      destruct (Nat.ltb_spec s (s + S m)); [reflexivity | lia].
Qed.

Lemma find_pointwise {A} (p q : A -> bool) l :
  (forall x, p x = q x) -> find p l = find q l.
Proof.
  intros Hpq. induction l as [|x l IH]; cbn [find]; [reflexivity|].
  rewrite Hpq, IH. reflexivity.
Qed.

Lemma nextUndisclosed_prefix total (record : HintUsageRecord) k :
  map fst (revealed record) = rev (seq 0 k) ->
  nextUndisclosed total record
  = if (k <? total)%nat then Some k else None.
Proof.
  intros Hrec. unfold nextUndisclosed. rewrite Hrec.
  rewrite (find_pointwise _ (fun i => negb (i <? k)%nat)).
  - rewrite find_not_below. reflexivity.
  - intros i. rewrite revealed_below. reflexivity.
Qed.

(** One reveal on a record that holds the indices below [k]. *)
Lemma revealNext_prefix now levelId (ledger : gmap string HintUsageRecord)
    record k :
  ledger !! levelId = Some record ->
  map fst (revealed record) = rev (seq 0 k) ->
  revealNext getLevel now levelId ledger
  = if (k <? totalHints getLevel levelId)%nat
    then (Some k,
          <[levelId := {| revealed := (k, now) :: revealed record |}]>
            ledger)
    else (None, ledger).
Proof.
  intros Hl Hrec. unfold revealNext. rewrite Hl.
  rewrite (nextUndisclosed_prefix _ _ k Hrec).
  destruct (k <? totalHints getLevel levelId)%nat; reflexivity.
Qed.

Lemma answers_exhausted n m : forall s,
  (n <= s)%nat ->
  map (fun j => if (j <? n)%nat then Some j else None) (seq s m)
  = repeat None m.
Proof.
  induction m as [|m IH]; intros s Hs; cbn [seq map repeat]; [reflexivity|].
  rewrite IH by lia.
  destruct (Nat.ltb_spec s n); [lia | reflexivity].
Qed.

Lemma revealMany_prefix levelId times :
  forall (ledger : gmap string HintUsageRecord) record k,
  ledger !! levelId = Some record ->
  map fst (revealed record) = rev (seq 0 k) ->
  (k <= totalHints getLevel levelId)%nat ->
  let n := totalHints getLevel levelId in
  let result := revealMany getLevel times levelId ledger in
  fst result
  = map (fun j => if (j <? n)%nat then Some j else None)
      (seq k (length times)) /\
  exists record',
    snd result !! levelId = Some record' /\
    map fst (revealed record')
    = rev (seq 0 (Nat.min (k + length times) n)).
Proof.
  induction times as [|now later IH]; intros ledger record k Hl Hrec Hk;
    cbn [revealMany length seq map].
  - split; [reflexivity|]. exists record. split; [exact Hl|].
    rewrite Hrec. f_equal. f_equal. lia.
  - rewrite (revealNext_prefix now levelId ledger record k Hl Hrec).
    destruct (Nat.ltb_spec k (totalHints getLevel levelId)) as [Hlt | Hge].
    + set (record1 := {| revealed := (k, now) :: revealed record |}).
      specialize (IH (<[levelId := record1]> ledger) record1 (S k)).
      destruct (revealMany getLevel later levelId
                  (<[levelId := record1]> ledger))
        as [answers final] eqn:E.
      cbn [fst snd] in *.
      destruct IH as (Hans & record' & Hfinal & Hrec').
      * apply lookup_insert_eq.
      * cbn [record1 revealed map fst]. rewrite Hrec.
        replace (S k) with (k + 1)%nat by lia.
        rewrite seq_app, rev_app_distr. reflexivity.
      * lia.
      * split; [rewrite Hans; reflexivity|].
        exists record'. split; [exact Hfinal|].
        rewrite Hrec'. f_equal. f_equal. lia.
    + specialize (IH ledger record k Hl Hrec Hk).
      destruct (revealMany getLevel later levelId ledger)
        as [answers final] eqn:E.
      cbn [fst snd] in *.
      destruct IH as (Hans & record' & Hfinal & Hrec').
      split.
      * f_equal. rewrite Hans.
        rewrite !answers_exhausted by lia. reflexivity.
      * exists record'. split; [exact Hfinal|].
        rewrite Hrec'. f_equal. f_equal. lia.
Qed.

(** C9.  In a level attempt, which starts with [reset], the [k]-th call
    of [revealNext] (counting from 0) answers hint index [k] as long as
    [k] is below the hint count of the level and "no more hints"
    afterwards: the indices come in ascending order from 0 and none
    comes twice.  The usage count is the number of calls, capped at the
    hint count, and once all hints are out a further call changes
    nothing. *)
Theorem revealNext_ascending levelId ledger times :
  let n := totalHints getLevel levelId in
  let result := revealMany getLevel times levelId (reset levelId ledger) in
  fst result
  = map (fun k => if (k <? n)%nat then Some k else None)
      (seq 0 (length times)) /\
  usageCount levelId (snd result) = Nat.min (length times) n /\
  ((n <= length times)%nat ->
   forall now,
     revealNext getLevel now levelId (snd result) = (None, snd result)).
Proof.
  intros n result.
  destruct (revealMany_prefix levelId times (reset levelId ledger)
              {| revealed := [] |} 0%nat)
    as (Hans & record' & Hfinal & Hrec').
  - apply lookup_insert_eq.
  - reflexivity.
  - lia.
  - fold n in Hans, Hrec'. fold result in Hans, Hfinal.
    split; [exact Hans|]. split.
    + unfold usageCount. rewrite Hfinal.
      rewrite <- (length_map fst), Hrec', length_rev, length_seq.
      reflexivity.
    + intros Hall now.
      rewrite (revealNext_prefix now levelId (snd result) record'
                 (Nat.min (0 + length times) n) Hfinal Hrec').
      fold n. destruct (Nat.ltb_spec (Nat.min (0 + length times) n) n);
        [lia | reflexivity].
Qed.

End LedgerClaims.

Lemma revealNext_ascending_witness :
  fst (HintLedger.revealMany Levels.getLevelById [10; 20; 30; 40; 50]
         "easy-001" (HintLedger.reset "easy-001" ∅))
  = [Some 0%nat; Some 1%nat; Some 2%nat; None; None].
Proof.
  destruct (revealNext_ascending Levels.getLevelById "easy-001" ∅
              [10; 20; 30; 40; 50]) as (H & _).
  exact H.
Defined.

(** ** Blank prompts *)

Section TrimFacts.
Import JsString.

Lemma trimStart_blank s : forallb isWhiteSpace s = true -> trimStart s = [].
Proof.
  induction s as [|c s IH]; cbn [forallb trimStart]; [reflexivity|].
  intros [Hc Hs]%andb_true_iff. rewrite Hc. apply IH, Hs.
Qed.

(** What [trimStart] leaves does not start with white space, and if
    nothing is left then the string was blank. *)
Lemma trimStart_nil s : trimStart s = [] -> forallb isWhiteSpace s = true.
Proof.
  induction s as [|c s IH]; cbn [forallb trimStart]; [reflexivity|].
  destruct (isWhiteSpace c); [apply IH | discriminate].
Qed.

Lemma trimStart_idem s : trimStart (trimStart s) = trimStart s.
Proof.
  induction s as [|c s IH]; cbn [trimStart]; [reflexivity|].
  destruct (isWhiteSpace c) eqn:Hc; [exact IH|].
  cbn [trimStart]. rewrite Hc. reflexivity.
Qed.

Lemma forallb_rev {A} (p : A -> bool) l : forallb p (rev l) = forallb p l.
Proof.
  induction l as [|x l IH]; cbn [rev forallb]; [reflexivity|].
  rewrite forallb_app, IH. cbn [forallb]. rewrite andb_true_r.
  apply andb_comm.
Qed.

(** [!prompt.trim()] holds exactly for the strings made of white space
    only, the empty string among them. *)
Lemma blank_iff s :
  negb (truthy (trim s)) = true <-> forallb isWhiteSpace s = true.
Proof.
  unfold trim, trimEnd. split.
  - intros H.
    assert (Hnil : trimStart (rev (trimStart s)) = []).
    { destruct (trimStart (rev (trimStart s))) as [|c t] eqn:E;
        [reflexivity|].
      destruct (rev (c :: t)) eqn:E2; [|discriminate H].
      apply (f_equal (@length Z)) in E2. rewrite length_rev in E2.
      discriminate E2. }
    apply trimStart_nil in Hnil. rewrite forallb_rev in Hnil.
    apply trimStart_nil. rewrite <- trimStart_idem.
    apply trimStart_blank, Hnil.
  - intros H. rewrite (trimStart_blank s H). reflexivity.
Qed.

End TrimFacts.

(** ** The game screen *)

Section ScreenClaims.
Import JsString GameScreen PenaltyCalculator.
Variable completeLevel :
  string -> GameStore.GameState -> GameStore.GameState.
Variable getPenaltyDetails :
  gmap string HintLedger.HintUsageRecord -> string -> Z -> Z ->
  Levels.Difficulty -> PenaltyCalculator.ScoreBreakdown.
Variable level : ApiLevel.

(** The handlers of this screen. *)
Local Abbreviation penaltyDetailsOf :=
  (GameScreen.penaltyDetailsOf getPenaltyDetails level).
Local Abbreviation scoreAttempt :=
  (GameScreen.scoreAttempt completeLevel getPenaltyDetails level).
Local Abbreviation handleGenerate :=
  (GameScreen.handleGenerate completeLevel getPenaltyDetails level).
Local Abbreviation resume :=
  (GameScreen.resume completeLevel getPenaltyDetails level).
Local Abbreviation step := (GameScreen.step completeLevel getPenaltyDetails level).
Local Abbreviation run := (GameScreen.run completeLevel getPenaltyDetails level).
Local Abbreviation reachable :=
  (GameScreen.reachable completeLevel getPenaltyDetails level).

Lemma scoreAttempt_failed score w :
  finalScore (penaltyDetailsOf score w) < passingScore level ->
  scoreAttempt score w
  = emit
      (AlertTryAgain (finalScore (penaltyDetailsOf score w))
         (if 0 <? hintsUsed (penaltyDetailsOf score w)
          then Some (score,
                     penaltyPoints (penaltyDetailsOf score w),
                     hintsUsed (penaltyDetailsOf score w))
          else None)
         (passingScore level))
      (emit LoseLife
         (onStore GameStore.loseLife
            (onScreen
               (setLastScore (finalScore (penaltyDetailsOf score w)))
               w))).
Proof.
  intros Hlt. unfold GameScreen.scoreAttempt.
  cbn [onScreen ledger].
  destruct (Z.leb_spec (passingScore level)
              (finalScore (penaltyDetailsOf score w)));
    [lia | reflexivity].
Qed.

Lemma scoreAttempt_passed score w :
  passingScore level <= finalScore (penaltyDetailsOf score w) ->
  scoreAttempt score w
  = emit (CompleteLevel (id level))
      (onStore (completeLevel (id level))
         (onScreen (setShowResult true)
            (onScreen
               (setLastScore (finalScore (penaltyDetailsOf score w)))
               w))).
Proof.
  intros Hle. unfold GameScreen.scoreAttempt.
  cbn [onScreen ledger].
  destruct (Z.leb_spec (passingScore level)
              (finalScore (penaltyDetailsOf score w)));
    [reflexivity | lia].
Qed.

(** C2.  When the raw score reaches the passing score but the final
    score after the hint penalty is below it, the attempt has failed:
    the screen calls [loseLife] and neither [completeLevel] nor
    [setShowResult].  With raw score 85, passing score 75, two hints and
    8 points per hint the final score is 69, below 75. *)
Theorem penalised_attempt_fails score w :
  passingScore level <= score ->
  finalScore (penaltyDetailsOf score w) < passingScore level ->
  let w' := scoreAttempt score w in
  (store w' = GameStore.loseLife (store w) /\
   showResult (screen w') = showResult (screen w) /\
   lastScore (screen w') = finalScore (penaltyDetailsOf score w) /\
   exists alert, effects w' = effects w ++ [LoseLife; alert] /\
                 alert <> CompleteLevel (id level)) /\
  (let d := compute 85 75 Levels.easy 2 in
   penaltyPerHint d = 8 /\
   finalScore d = 69 /\
   (75 <=? finalScore d) = false).
Proof.
  intros _ Hlt w'. subst w'. rewrite (scoreAttempt_failed score w Hlt).
  split; [|repeat split].
  cbn [emit onStore onScreen store screen effects setLastScore showResult
       lastScore].
  repeat split. eexists. split.
  - rewrite <- app_assoc. reflexivity.
  - discriminate.
Qed.

(** C3.  A scored attempt passes exactly when the final score reaches
    the passing score: then the screen shows the result and calls
    [completeLevel]; otherwise it calls [loseLife] once and nothing else
    on the store.  [loseLife] takes one life, never leaves fewer than 0
    (at 0 lives it leaves 0) and does not touch [maxLives]. *)
Theorem attempt_outcome score w :
  let final := finalScore (penaltyDetailsOf score w) in
  let w' := scoreAttempt score w in
  lastScore (screen w') = final /\
  (passingScore level <= final ->
   showResult (screen w') = true /\
   store w' = completeLevel (id level) (store w) /\
   effects w' = effects w ++ [CompleteLevel (id level)]) /\
  (final < passingScore level ->
   showResult (screen w') = showResult (screen w) /\
   store w' = GameStore.loseLife (store w) /\
   loseLifeCalls w' = S (loseLifeCalls w) /\
   GameStore.currentLives (store w')
   = Z.max 0 (GameStore.currentLives (store w) - 1) /\
   0 <= GameStore.currentLives (store w') /\
   (1 <= GameStore.currentLives (store w) ->
    GameStore.currentLives (store w')
    = GameStore.currentLives (store w) - 1) /\
   (GameStore.currentLives (store w) = 0 ->
    GameStore.currentLives (store w') = 0) /\
   GameStore.maxLives (store w') = GameStore.maxLives (store w)).
Proof.
  intros final w'. subst final w'.
  destruct (Z.le_gt_cases (passingScore level)
              (finalScore (penaltyDetailsOf score w)))
    as [Hpass | Hfail].
  - rewrite (scoreAttempt_passed score w Hpass).
    cbn [emit onStore onScreen store screen effects setLastScore
         setShowResult showResult lastScore].
    split; [reflexivity|]. split; [intros _; repeat split | lia].
  - rewrite (scoreAttempt_failed score w Hfail).
    cbn [emit onStore onScreen store screen effects setLastScore showResult
         lastScore].
    split; [reflexivity|]. split; [lia|]. intros _.
    pose proof (loseLife_floor (store w)) as (H0 & H1 & H2 & H3).
    repeat split; try assumption.
    unfold loseLifeCalls; cbn [effects emit onStore onScreen].
    rewrite !List.filter_app, !length_app. cbn. lia.
Qed.

(** C6.  When the evaluator call of an attempt fails, the screen calls
    no store action (no life is lost, no progress recorded), does not
    set a score, clears [isGenerating] so that the prompt can be
    submitted again, and reports the failure through [promptError]. *)
Theorem evaluator_failure k draw w :
  inFlight w !! k = Some AwaitImage ->
  let w' := step (Settle k Rejected draw) w in
  store w' = store w /\
  ledger w' = ledger w /\
  lastScore (screen w') = lastScore (screen w) /\
  showResult (screen w') = showResult (screen w) /\
  prompt (screen w') = prompt (screen w) /\
  isGenerating (screen w') = false /\
  promptError (screen w')
  = Some "Something went wrong. Please try again."%string /\
  effects w' = effects w ++ [LoggerError].
Proof.
  intros Hk w'. subst w'. cbn [GameScreen.step]. rewrite Hk.
  cbn. repeat split.
Qed.

(** C7.  A prompt that is empty or made of white space only is turned
    down before any call is made: [handleGenerate] sets [promptError]
    and changes nothing else. *)
Theorem blank_prompt_rejected w :
  forallb isWhiteSpace (prompt (screen w)) = true ->
  let w' := handleGenerate w in
  w' = onScreen (setPromptError (Some "Please enter a prompt"%string)) w /\
  promptError (screen w') = Some "Please enter a prompt"%string /\
  effects w' = effects w /\
  inFlight w' = inFlight w /\
  store w' = store w /\
  ledger w' = ledger w /\
  lastScore (screen w') = lastScore (screen w) /\
  isGenerating (screen w') = isGenerating (screen w).
Proof.
  intros Hblank w'. subst w'. unfold GameScreen.handleGenerate.
  apply blank_iff in Hblank. rewrite Hblank. repeat split.
Qed.

(** A prompt with a character that is not white space is submitted. *)
Lemma handleGenerate_accepts w :
  forallb isWhiteSpace (prompt (screen w)) = false ->
  handleGenerate w
  = let w1 := onScreen (setIsGenerating true)
                (onScreen (setPromptError None) w) in
    match type level with
    | Some image =>
        suspend AwaitImage (emit (GenerateImage (prompt (screen w1))) w1)
    | Some code => suspend AwaitCode (emit (Timer 1500) w1)
    | Some copywriting => suspend AwaitCopywriting (emit (Timer 1500) w1)
    | None => finally (scoreAttempt 0 w1)
    end.
Proof.
  intros Hnb. unfold GameScreen.handleGenerate.
  destruct (negb (truthy (trim (prompt (screen w))))) eqn:E;
    [|reflexivity].
  apply blank_iff in E. congruence.
Qed.

End ScreenClaims.

(** ** One submit at a time *)

Section SingleFlight.
Import JsString GameScreen.
Variable completeLevel :
  string -> GameStore.GameState -> GameStore.GameState.
Variable getPenaltyDetails :
  gmap string HintLedger.HintUsageRecord -> string -> Z -> Z ->
  Levels.Difficulty -> PenaltyCalculator.ScoreBreakdown.
Variable level : ApiLevel.

(** The handlers of this screen. *)
Local Abbreviation penaltyDetailsOf :=
  (GameScreen.penaltyDetailsOf getPenaltyDetails level).
Local Abbreviation scoreAttempt :=
  (GameScreen.scoreAttempt completeLevel getPenaltyDetails level).
Local Abbreviation handleGenerate :=
  (GameScreen.handleGenerate completeLevel getPenaltyDetails level).
Local Abbreviation resume :=
  (GameScreen.resume completeLevel getPenaltyDetails level).
Local Abbreviation step := (GameScreen.step completeLevel getPenaltyDetails level).
Local Abbreviation run := (GameScreen.run completeLevel getPenaltyDetails level).
Local Abbreviation reachable :=
  (GameScreen.reachable completeLevel getPenaltyDetails level).

Lemma scoreAttempt_frame score w :
  let w' := scoreAttempt score w in
  inFlight w' = inFlight w /\
  isGenerating (screen w') = isGenerating (screen w) /\
  evaluatorCalls w' = evaluatorCalls w /\
  (loseLifeCalls w' <= S (loseLifeCalls w))%nat.
Proof.
  unfold GameScreen.scoreAttempt, evaluatorCalls, loseLifeCalls.
  destruct (passingScore level <=? _);
    cbn [emit onStore onScreen inFlight screen effects isGenerating
         setLastScore setShowResult];
    rewrite !List.filter_app, !length_app; cbn; repeat split; lia.
Qed.

Lemma finally_scoreAttempt_idle score w :
  inFlight w = [] ->
  single_flight (finally (scoreAttempt score w)).
Proof.
  intros Hfl. left. split; [reflexivity|].
  destruct (scoreAttempt_frame score w) as (H & _).
  cbn [finally onScreen inFlight]. rewrite H. exact Hfl.
Qed.

Lemma handleGenerate_idle w :
  isGenerating (screen w) = false -> inFlight w = [] ->
  single_flight (handleGenerate w).
Proof.
  intros Hgen Hfl. unfold GameScreen.handleGenerate.
  destruct (negb (truthy (trim (prompt (screen w))))).
  - left. split; assumption.
  - destruct (type level) as [[| |]|].
    1-3: right; split; [reflexivity|];
         cbn [suspend emit onScreen inFlight]; rewrite Hfl; eauto.
    apply finally_scoreAttempt_idle. exact Hfl.
Qed.

Lemma resume_idle p r draw w :
  inFlight w = [] -> single_flight (resume p r draw w).
Proof.
  intros Hfl. destruct p, r; cbn [GameScreen.resume];
    try (apply finally_scoreAttempt_idle; exact Hfl).
  left. split; [reflexivity | exact Hfl].
Qed.

Lemma step_single_flight e w :
  single_flight w -> enabled whileIdle e w ->
  single_flight (step e w).
Proof.
  intros Hinv Hen. destruct e as [|text|k r draw|l]; cbn [GameScreen.step].
  - unfold enabled, whileIdle in Hen. apply negb_true_iff in Hen.
    destruct Hinv as [[_ Hfl] | [Hgen _]]; [|congruence].
    apply handleGenerate_idle; assumption.
  - unfold handlePromptChange.
    destruct (promptError _) as [message|];
      [destruct (String.eqb message EmptyString)|]; exact Hinv.
  - destruct (inFlight w !! k) as [p|] eqn:Hk; [|exact Hinv].
    apply resume_idle.
    destruct Hinv as [[_ Hfl] | [_ [q Hfl]]]; cbn [settle inFlight].
    + rewrite Hfl. destruct k; reflexivity.
    + rewrite Hfl in Hk |- *. destruct k as [|k]; [reflexivity|].
      destruct k; discriminate Hk.
  - exact Hinv.
Qed.

Lemma reachable_single_flight w :
  reachable whileIdle w -> single_flight w.
Proof.
  induction 1 as [st l | e w Hreach IH Hen].
  - left. split; reflexivity.
  - apply step_single_flight; assumption.
Qed.

Lemma resume_calls p r draw w :
  let w' := resume p r draw w in
  evaluatorCalls w' = evaluatorCalls w /\
  (loseLifeCalls w' <= S (loseLifeCalls w))%nat.
Proof.
  destruct p, r; cbn [GameScreen.resume];
    try (match goal with
         | |- context [GameScreen.scoreAttempt _ _ _ ?s ?w0] =>
             destruct (scoreAttempt_frame s w0) as (_ & _ & He & Hl);
             split; [exact He | exact Hl]
         end).
  unfold evaluatorCalls, loseLifeCalls;
    cbn [finally catch emit onScreen effects];
    rewrite !List.filter_app, !length_app; cbn; lia.
Qed.

Lemma handleGenerate_loseLife w :
  (loseLifeCalls (handleGenerate w)
   <= S (loseLifeCalls w))%nat.
Proof.
  unfold GameScreen.handleGenerate.
  destruct (negb (truthy (trim (prompt (screen w)))));
    [cbn; unfold loseLifeCalls; cbn; lia|].
  destruct (type level) as [[| |]|].
  1-3: unfold loseLifeCalls;
       cbn [suspend emit onScreen effects];
       rewrite !List.filter_app, !length_app; cbn; lia.
  match goal with
  | |- context [GameScreen.scoreAttempt _ _ _ ?s ?w0] =>
      destruct (scoreAttempt_frame s w0) as (_ & _ & _ & Hl)
  end.
  exact Hl.
Qed.

(** C8, as the code has it.  [handleGenerate] has no guard of its own;
    it sets [isGenerating] when it starts an attempt and clears it when
    the attempt settles.  When the view calls [handleGenerate] only
    while [isGenerating] is false, then in every reachable state at most
    one call is in flight, [isGenerating] holds exactly while one is,
    no event starts an evaluator call while one is in flight, and no
    event makes the screen call [loseLife] more than once. *)
Theorem guarded_submit_single_flight w :
  reachable whileIdle w ->
  (length (inFlight w) <= 1)%nat /\
  (isGenerating (screen w) = true <-> inFlight w <> []) /\
  (forall e, enabled whileIdle e w -> inFlight w <> [] ->
     evaluatorCalls (step e w) = evaluatorCalls w) /\
  (forall e,
     (loseLifeCalls (step e w)
      <= S (loseLifeCalls w))%nat).
Proof.
  intros Hreach. pose proof (reachable_single_flight w Hreach) as Hinv.
  split; [|split; [|split]].
  - destruct Hinv as [[_ ->] | [_ [p ->]]]; cbn; lia.
  - destruct Hinv as [[Hg ->] | [Hg [p ->]]]; rewrite Hg; split;
      congruence.
  - intros e Hen Hbusy.
    destruct e as [|text|k r draw|l]; cbn [GameScreen.step].
    + unfold enabled, whileIdle in Hen. apply negb_true_iff in Hen.
      destruct Hinv as [[_ Hfl] | [Hg _]]; congruence.
    + unfold handlePromptChange.
      destruct (promptError _) as [message|];
        [destruct (String.eqb message EmptyString)|]; reflexivity.
    + destruct (inFlight w !! k); [|reflexivity].
      destruct (resume_calls p r draw (settle k w)) as (He & _).
      exact He.
    + reflexivity.
  - intros e. destruct e as [|text|k r draw|l]; cbn [GameScreen.step].
    + apply handleGenerate_loseLife.
    + unfold handlePromptChange.
      destruct (promptError _) as [message|];
        [destruct (String.eqb message EmptyString)|];
        unfold loseLifeCalls; cbn; lia.
    + destruct (inFlight w !! k); [|lia].
      destruct (resume_calls p r draw (settle k w)) as (_ & Hl).
      exact Hl.
    + unfold loseLifeCalls; cbn; lia.
Qed.

Lemma run_reachable guard es : forall w,
  reachable guard w ->
  (forall w' e, enabled guard e w') ->
  reachable guard (run es w).
Proof.
  unfold GameScreen.run.
  induction es as [|e es IH]; cbn [fold_left]; intros w Hr Hen.
  - exact Hr.
  - apply IH; [|exact Hen]. apply reachable_step; [exact Hr | apply Hen].
Qed.

End SingleFlight.

(** ** The claims at concrete inputs *)

Lemma penalised_attempt_fails_witness :
  GameScreen.store
    (GameScreen.scoreAttempt (fun _ st => st) NanoAssistant.getPenaltyDetails
       {| GameScreen.id := "copy-001";
          GameScreen.type := Some GameScreen.copywriting;
          GameScreen.passingScore := 75;
          GameScreen.difficulty := Levels.easy |}
       85
       (GameScreen.initialWorld GameStore.initialState
          (<["copy-001"%string :=
               {| HintLedger.revealed := [(1%nat, 20); (0%nat, 10)] |}]> ∅)))
  = GameStore.loseLife GameStore.initialState.
Proof.
  destruct (penalised_attempt_fails (fun _ st => st)
              NanoAssistant.getPenaltyDetails
              {| GameScreen.id := "copy-001";
                 GameScreen.type := Some GameScreen.copywriting;
                 GameScreen.passingScore := 75;
                 GameScreen.difficulty := Levels.easy |}
              85
              (GameScreen.initialWorld GameStore.initialState
                 (<["copy-001"%string :=
                      {| HintLedger.revealed := [(1%nat, 20); (0%nat, 10)] |}]>
                    ∅)))
    as ((H & _) & _).
  - cbn. lia.
  - vm_compute. reflexivity.
  - exact H.
Defined.

Lemma attempt_outcome_witness :
  GameScreen.lastScore
    (GameScreen.screen
       (GameScreen.scoreAttempt (fun _ st => st) NanoAssistant.getPenaltyDetails
          {| GameScreen.id := "code-001";
             GameScreen.type := Some GameScreen.code;
             GameScreen.passingScore := 80;
             GameScreen.difficulty := Levels.hard |}
          100
          (GameScreen.initialWorld GameStore.initialState
             (<["code-001"%string :=
                  {| HintLedger.revealed := [(0%nat, 10)] |}]> ∅))))
  = 96.
Proof.
  destruct (attempt_outcome (fun _ st => st)
              NanoAssistant.getPenaltyDetails
              {| GameScreen.id := "code-001";
                 GameScreen.type := Some GameScreen.code;
                 GameScreen.passingScore := 80;
                 GameScreen.difficulty := Levels.hard |}
              100
              (GameScreen.initialWorld GameStore.initialState
                 (<["code-001"%string :=
                      {| HintLedger.revealed := [(0%nat, 10)] |}]> ∅)))
    as (H & _).
  rewrite H. vm_compute. reflexivity.
Defined.

Lemma evaluator_failure_witness :
  GameStore.currentLives
    (GameScreen.store
       (GameScreen.step (fun _ st => st) NanoAssistant.getPenaltyDetails
          {| GameScreen.id := "image-001";
             GameScreen.type := Some GameScreen.image;
             GameScreen.passingScore := 90;
             GameScreen.difficulty := Levels.easy |}
          (GameScreen.Settle 0 GameScreen.Rejected 0)
          (GameScreen.run (fun _ st => st) NanoAssistant.getPenaltyDetails
             {| GameScreen.id := "image-001";
                GameScreen.type := Some GameScreen.image;
                GameScreen.passingScore := 90;
                GameScreen.difficulty := Levels.easy |}
             [GameScreen.PromptChange [97]; GameScreen.Press]
             (GameScreen.initialWorld GameStore.initialState ∅))))
  = 3.
Proof.
  destruct (evaluator_failure (fun _ st => st)
              NanoAssistant.getPenaltyDetails
              {| GameScreen.id := "image-001";
                 GameScreen.type := Some GameScreen.image;
                 GameScreen.passingScore := 90;
                 GameScreen.difficulty := Levels.easy |}
              0%nat 0
              (GameScreen.run (fun _ st => st) NanoAssistant.getPenaltyDetails
                 {| GameScreen.id := "image-001";
                    GameScreen.type := Some GameScreen.image;
                    GameScreen.passingScore := 90;
                    GameScreen.difficulty := Levels.easy |}
                 [GameScreen.PromptChange [97]; GameScreen.Press]
                 (GameScreen.initialWorld GameStore.initialState ∅)))
    as (H & _).
  - reflexivity.
  - rewrite H. reflexivity.
Defined.

Lemma blank_prompt_rejected_witness :
  GameScreen.effects
    (GameScreen.handleGenerate (fun _ st => st) NanoAssistant.getPenaltyDetails
       {| GameScreen.id := "image-001";
          GameScreen.type := Some GameScreen.image;
          GameScreen.passingScore := 90;
          GameScreen.difficulty := Levels.easy |}
       (GameScreen.handlePromptChange [32; 9; 10]
          (GameScreen.initialWorld GameStore.initialState ∅)))
  = [].
Proof.
  destruct (blank_prompt_rejected (fun _ st => st)
              NanoAssistant.getPenaltyDetails
              {| GameScreen.id := "image-001";
                 GameScreen.type := Some GameScreen.image;
                 GameScreen.passingScore := 90;
                 GameScreen.difficulty := Levels.easy |}
              (GameScreen.handlePromptChange [32; 9; 10]
                 (GameScreen.initialWorld GameStore.initialState ∅)))
    as (_ & _ & H & _).
  - reflexivity.
  - exact H.
Defined.

Lemma guarded_submit_single_flight_witness :
  (length
     (GameScreen.inFlight
        (GameScreen.step (fun _ st => st) NanoAssistant.getPenaltyDetails
           {| GameScreen.id := "image-001";
              GameScreen.type := Some GameScreen.image;
              GameScreen.passingScore := 90;
              GameScreen.difficulty := Levels.easy |}
           GameScreen.Press
           (GameScreen.step (fun _ st => st) NanoAssistant.getPenaltyDetails
              {| GameScreen.id := "image-001";
                 GameScreen.type := Some GameScreen.image;
                 GameScreen.passingScore := 90;
                 GameScreen.difficulty := Levels.easy |}
              (GameScreen.PromptChange [97%Z])
              (GameScreen.initialWorld GameStore.initialState ∅))))
   <= 1)%nat.
Proof.
  refine (proj1 (guarded_submit_single_flight (fun _ st => st)
                   NanoAssistant.getPenaltyDetails _ _ _)).
  apply GameScreen.reachable_step.
  - apply GameScreen.reachable_step.
    + apply GameScreen.reachable_init.
    + exact I.
  - reflexivity.
Defined.

(** C8, as it is stated, fails on [handleGenerate]: pressed twice in a
    row on an image level, it starts two evaluator calls, both are in
    flight, and when both settle with a failing score two lives are
    gone. *)
Lemma second_submit_not_rejected :
  GameScreen.reachable (fun _ st => st) NanoAssistant.getPenaltyDetails
    {| GameScreen.id := "image-001";
       GameScreen.type := Some GameScreen.image;
       GameScreen.passingScore := 90;
       GameScreen.difficulty := Levels.easy |}
    GameScreen.unguarded
    (GameScreen.run (fun _ st => st) NanoAssistant.getPenaltyDetails
       {| GameScreen.id := "image-001";
          GameScreen.type := Some GameScreen.image;
          GameScreen.passingScore := 90;
          GameScreen.difficulty := Levels.easy |}
       [GameScreen.PromptChange [97]; GameScreen.Press; GameScreen.Press]
       (GameScreen.initialWorld GameStore.initialState ∅)) /\
  GameScreen.isGenerating
    (GameScreen.screen
       (GameScreen.run (fun _ st => st) NanoAssistant.getPenaltyDetails
          {| GameScreen.id := "image-001";
             GameScreen.type := Some GameScreen.image;
             GameScreen.passingScore := 90;
             GameScreen.difficulty := Levels.easy |}
          [GameScreen.PromptChange [97]; GameScreen.Press]
          (GameScreen.initialWorld GameStore.initialState ∅))) = true /\
  GameScreen.inFlight
    (GameScreen.run (fun _ st => st) NanoAssistant.getPenaltyDetails
       {| GameScreen.id := "image-001";
          GameScreen.type := Some GameScreen.image;
          GameScreen.passingScore := 90;
          GameScreen.difficulty := Levels.easy |}
       [GameScreen.PromptChange [97]; GameScreen.Press; GameScreen.Press]
       (GameScreen.initialWorld GameStore.initialState ∅))
  = [GameScreen.AwaitImage; GameScreen.AwaitImage] /\
  GameScreen.effects
    (GameScreen.run (fun _ st => st) NanoAssistant.getPenaltyDetails
       {| GameScreen.id := "image-001";
          GameScreen.type := Some GameScreen.image;
          GameScreen.passingScore := 90;
          GameScreen.difficulty := Levels.easy |}
       [GameScreen.PromptChange [97]; GameScreen.Press; GameScreen.Press]
       (GameScreen.initialWorld GameStore.initialState ∅))
  = [GameScreen.GenerateImage [97]; GameScreen.GenerateImage [97]] /\
  GameStore.currentLives
    (GameScreen.store
       (GameScreen.run (fun _ st => st) NanoAssistant.getPenaltyDetails
          {| GameScreen.id := "image-001";
             GameScreen.type := Some GameScreen.image;
             GameScreen.passingScore := 90;
             GameScreen.difficulty := Levels.easy |}
          [GameScreen.PromptChange [97]; GameScreen.Press; GameScreen.Press;
           GameScreen.Settle 0 (GameScreen.Fulfilled None) 5;
           GameScreen.Settle 0 (GameScreen.Fulfilled None) 7]
          (GameScreen.initialWorld GameStore.initialState ∅)))
  = 1.
Proof.
  split.
  - apply run_reachable; [apply GameScreen.reachable_init|].
    intros w' e. destruct e; reflexivity.
  - repeat split; vm_compute; reflexivity.
Qed.

(** * Further properties of the code *)

(** ** The level table *)

Section LevelLookups.
Import Levels.

Lemma index_nth {A} (l : list A) (k : nat) :
  index l (Z.of_nat k) = nth_error l k.
Proof.
  unfold index. destruct (Z.ltb_spec (Z.of_nat k) 0); [lia|].
  rewrite Nat2Z.id. reflexivity.
Qed.

Lemma find_hasId_None i l :
  ~ In i (map id l) -> find (hasId i) l = None.
Proof.
  induction l as [|x l IH]; cbn [map find In]; [reflexivity|].
  intros Hn. destruct (hasId i x) eqn:E.
  - apply hasId_true in E. tauto.
  - apply IH. tauto.
Qed.

Lemma findIndex_None i l :
  ~ In i (map id l) -> findIndex (hasId i) l = -1.
Proof.
  induction l as [|x l IH]; cbn [map findIndex In]; [reflexivity|].
  intros Hn. destruct (hasId i x) eqn:E.
  - apply hasId_true in E. tauto.
  - rewrite IH by tauto. reflexivity.
Qed.

(** In a table without duplicate ids, the first element with the id of
    the [k]-th element is the [k]-th element. *)
Lemma find_nth_gen l : forall k level,
  List.NoDup (map id l) -> nth_error l k = Some level ->
  find (hasId (id level)) l = Some level /\
  findIndex (hasId (id level)) l = Z.of_nat k.
Proof.
  induction l as [|x l IH]; intros k level Hnd Hk.
  - destruct k; discriminate.
  - inversion Hnd as [|? ? Hnotin Hnd']; subst.
    cbn [find findIndex]. destruct k as [|k]; cbn [nth_error] in Hk.
    + injection Hk as ->.
      rewrite (proj2 (hasId_true (id level) level) eq_refl).
      split; reflexivity.
    + assert (Hne : hasId (id level) x = false).
      { apply hasId_false. intros Heq. apply Hnotin. rewrite Heq.
        apply in_map. eapply nth_error_In. exact Hk. }
      rewrite Hne. destruct (IH k level Hnd' Hk) as [Hf Hi].
      rewrite Hf, Hi. split; [reflexivity|].
      destruct (Z.ltb_spec (Z.of_nat k) 0); lia.
Qed.

(** X26.  [getLevelById] finds every level of the table under its own
    id, whatever it returns has the id asked for, and it returns
    [undefined] exactly for the ids the table does not have. *)
Theorem getLevelById_roundtrip :
  (forall level, In level LEVELS -> getLevelById (id level) = Some level) /\
  (forall i level, getLevelById i = Some level ->
     id level = i /\ In level LEVELS) /\
  (forall i, getLevelById i = None <-> ~ In i ids).
Proof.
  split; [|split].
  - intros level Hin. apply In_nth_error in Hin as [k Hk].
    apply (find_nth_gen LEVELS k level ids_NoDup Hk).
  - intros i level H. split.
    + apply (find_hasId_id i LEVELS level H).
    + apply find_some in H. tauto.
  - intros i. split.
    + intros Hnone Hin.
      destruct (find_hasId_In i LEVELS Hin) as [level Hl].
      unfold getLevelById in Hnone. congruence.
    + apply find_hasId_None.
Qed.

(** X27.  [getNextLevel] of the [k]-th level of the table is the level
    at [k + 1], so [undefined] for the last one; for an id the table does
    not have, [findIndex] gives [-1] and the answer is the first level of
    the table. *)
Theorem getNextLevel_cases :
  (forall k level, nth_error LEVELS k = Some level ->
     getNextLevel (id level) = nth_error LEVELS (S k)) /\
  (forall level, nth_error LEVELS (length LEVELS - 1) = Some level ->
     getNextLevel (id level) = None) /\
  (forall i, ~ In i ids -> getNextLevel i = nth_error LEVELS 0).
Proof.
  assert (Hk : forall k level, nth_error LEVELS k = Some level ->
            getNextLevel (id level) = nth_error LEVELS (S k)).
  { intros k level Hk. unfold getNextLevel.
    destruct (find_nth_gen LEVELS k level ids_NoDup Hk) as [_ ->].
    replace (Z.of_nat k + 1) with (Z.of_nat (S k)) by lia.
    apply index_nth. }
  split; [exact Hk|]. split.
  - intros level Hlast. rewrite (Hk _ _ Hlast).
    apply nth_error_None. vm_compute. lia.
  - intros i Hi. unfold getNextLevel.
    rewrite (findIndex_None i LEVELS Hi). reflexivity.
Qed.

End LevelLookups.

Lemma getLevelById_roundtrip_witness :
  Levels.getLevelById "hard-013"
  = nth_error Levels.LEVELS 12 /\
  Levels.getLevelById "easy-000" = None.
Proof.
  destruct getLevelById_roundtrip as (H1 & _ & H3). split.
  - assert (Hin : In {| Levels.id := "hard-013";
                        Levels.difficulty := Levels.hard;
                        Levels.passingScore := 80;
                        Levels.hints := ["What perspective/projection is used?";
                                         "What art style is this?";
                                         "Describe the geometric approach"] |}
                    Levels.LEVELS).
    { vm_compute. tauto. }
    refine (eq_trans (H1 _ Hin) _). reflexivity.
  - apply H3. vm_compute. intros H.
    repeat (destruct H as [H | H]; [discriminate H|]). exact H.
Defined.

Lemma getNextLevel_cases_witness :
  Levels.getNextLevel "expert-020" = None /\
  Levels.getNextLevel "no-such-level" = nth_error Levels.LEVELS 0.
Proof.
  destruct getNextLevel_cases as (_ & H2 & H3). split.
  - apply (H2 {| Levels.id := "expert-020";
                 Levels.difficulty := Levels.expert;
                 Levels.passingScore := 85;
                 Levels.hints := ["What painting technique?";
                                  "How is color applied?";
                                  "Which artist pioneered this?"] |}).
    reflexivity.
  - apply H3. vm_compute. intros H.
    repeat (destruct H as [H | H]; [discriminate H|]). exact H.
Defined.

(** ** More on the game store *)

Section StoreMore.
Import Levels GameStore StoreInvariants.



(** The entry stored under [levelId] by a call that does not throw. *)
Lemma updateLevelProgress_entry now levelId score state state' :
  updateLevelProgress now levelId score state = Some state' ->
  exists p level,
    levelProgress state !! levelId = Some p /\
    getLevelById levelId = Some level /\
    levelProgress state' !! levelId
    = Some (recorded now score (passingScore level <=? score) p) /\
    totalScore state'
    = (if gt (Num score) (toNumber (bestScore p))
       then add (totalScore state)
              (sub (Num score) (toNumber (bestScore p)))
       else totalScore state).
Proof.
  intros H.
  pose proof (updateLevelProgress_inv _ _ _ _ _ H)
    as (p & level & Hp & Hl & _ & _ & _ & Hlp).
  exists p, level. split; [exact Hp|]. split; [exact Hl|]. split.
  - rewrite Hlp. unfold unlockNext.
    destruct (getNextLevel levelId) as [next|] eqn:Hnext.
    + destruct (passingScore level <=? score).
      * rewrite lookup_insert_ne by (apply getNextLevel_id_ne, Hnext).
        apply lookup_insert_eq.
      * apply lookup_insert_eq.
    + apply lookup_insert_eq.
  - unfold updateLevelProgress in H. rewrite Hp in H.
    cbn [mbind option_bind] in H. unfold getLevelById in Hl.
    rewrite Hl in H. cbn [mbind option_bind] in H.
    cbv zeta in H. apply (inj Some) in H. subst state'. reflexivity.
Qed.









Lemma no_worse_refl p : no_worse p p.
Proof.
  unfold no_worse. repeat split; try tauto; intros x Hx; exists x;
    (split; [exact Hx | lia]).
Qed.

Lemma no_worse_unlock p : no_worse p (unlock p).
Proof.
  unfold no_worse, unlock; cbn. repeat split; try tauto;
    intros x Hx; exists x; (split; [exact Hx | lia]).
Qed.

Lemma no_worse_recorded now score isCompleted p :
  no_worse p (recorded now score isCompleted p).
Proof.
  unfold no_worse, recorded; cbn. repeat split.
  - tauto.
  - intros ->. destruct isCompleted; reflexivity.
  - intros b ->. cbn. exists (Z.max b score). split; [reflexivity | lia].
  - intros a ->. cbn. exists (a + 1). split; [reflexivity | lia].
Qed.

Lemma unlockLevel_keeps lid state i p :
  levelProgress state !! i = Some p ->
  exists p', levelProgress (unlockLevel lid state) !! i = Some p' /\
             no_worse p p'.
Proof.
  intros Hp. unfold unlockLevel, set_levelProgress; cbn [levelProgress].
  destruct (decide (lid = i)) as [-> | Hne].
  - rewrite lookup_insert_eq, Hp. eexists. split; [reflexivity|].
    apply no_worse_unlock.
  - rewrite lookup_insert_ne by exact Hne.
    exists p. split; [exact Hp | apply no_worse_refl].
Qed.

Lemma updateLevelProgress_keeps now lid score state state' i p :
  updateLevelProgress now lid score state = Some state' ->
  levelProgress state !! i = Some p ->
  exists p', levelProgress state' !! i = Some p' /\ no_worse p p'.
Proof.
  intros E Hp.
  pose proof (updateLevelProgress_inv _ _ _ _ _ E)
    as (q & level & Hq & _ & _ & _ & _ & Hlp).
  rewrite Hlp. unfold unlockNext.
  assert (Hbase : exists p',
    (<[lid := recorded now score (passingScore level <=? score) q]>
       (levelProgress state)) !! i = Some p' /\ no_worse p p').
  { destruct (decide (lid = i)) as [-> | Hne].
    - rewrite lookup_insert_eq. rewrite Hp in Hq. injection Hq as <-.
      eexists. split; [reflexivity | apply no_worse_recorded].
    - rewrite lookup_insert_ne by exact Hne.
      exists p. split; [exact Hp | apply no_worse_refl]. }
  destruct (getNextLevel lid) as [next|]; [|exact Hbase].
  destruct (passingScore level <=? score); [|exact Hbase].
  destruct (decide (id next = i)) as [Heq | Hne].
  - rewrite Heq, lookup_insert_eq, Hp. eexists. split; [reflexivity|].
    apply no_worse_unlock.
  - rewrite lookup_insert_ne by exact Hne. exact Hbase.
Qed.


(** X3.  [updateLevelProgress] throws exactly when the store has no
    entry for the level or the table has no level of that id; the store
    is then left as it was. *)
Theorem updateLevelProgress_throws now levelId score state :
  (updateLevelProgress now levelId score state = None <->
   levelProgress state !! levelId = None \/ ~ In levelId ids) /\
  (updateLevelProgress now levelId score state = None ->
   dispatch (UpdateLevelProgress now levelId score) state = state).
Proof.
  split.
  - split.
    + intros Hnone.
      destruct (levelProgress state !! levelId) as [p|] eqn:Hp; [|tauto].
      right. intros Hin.
      destruct (find_hasId_In levelId LEVELS Hin) as [level Hl].
      destruct (updateLevelProgress_Some now levelId score state p level
                  Hp Hl) as [state' Hs].
      congruence.
    + intros [Hp | Hid];
        destruct (updateLevelProgress now levelId score state) as [state'|]
          eqn:E; try reflexivity;
        apply updateLevelProgress_inv in E
          as (p & level & Hp' & Hl & _); exfalso.
      * congruence.
      * apply Hid. apply getLevelById_id in Hl as Hidl. subst levelId.
        apply in_map. unfold getLevelById in Hl. apply find_some in Hl.
        tauto.
  - intros Hnone. cbn [dispatch]. rewrite Hnone. reflexivity.
Qed.

Lemma bestAfter_lower b tries : b <= bestAfter b tries.
Proof.
  unfold bestAfter. revert b.
  induction tries as [|t rest IH]; cbn [fold_left]; intros b; [lia|].
  specialize (IH (Z.max b (snd t))). lia.
Qed.

(** X4.  A run of attempts on one level of the table adds their number
    to the attempt count of the level and leaves as best score the
    greatest of the old best score and the scores of the run. *)
Theorem attempts_accumulate levelId tries : forall state p b a,
  In levelId ids ->
  levelProgress state !! levelId = Some p ->
  bestScore p = Some (Num b) ->
  attempts p = Some (Num a) ->
  exists p',
    levelProgress (run (attemptsOn levelId tries) state) !! levelId = Some p' /\
    bestScore p' = Some (Num (bestAfter b tries)) /\
    attempts p' = Some (Num (a + Z.of_nat (length tries))).
Proof.
  unfold run, attemptsOn.
  induction tries as [|[now score] rest IH]; intros state p b a Hin Hp Hb Ha;
    cbn [map fold_left length bestAfter].
  - exists p. repeat split; [exact Hp | exact Hb |].
    rewrite Ha. f_equal. f_equal. lia.
  - cbn [dispatch fst snd].
    destruct (find_hasId_In levelId LEVELS Hin) as [level Hl].
    destruct (updateLevelProgress_Some now levelId score state p level Hp Hl)
      as [state' Hs].
    rewrite Hs.
    pose proof (updateLevelProgress_entry _ _ _ _ _ Hs)
      as (p0 & level0 & Hp0 & _ & Hentry & _).
    rewrite Hp in Hp0. injection Hp0 as <-.
    destruct (IH state' _ (Z.max b score) (a + 1) Hin Hentry)
      as (p' & Hp' & Hb' & Ha').
    + unfold recorded; cbn [bestScore]. rewrite Hb. reflexivity.
    + unfold recorded; cbn [attempts]. rewrite Ha. reflexivity.
    + exists p'. split; [exact Hp'|]. split; [exact Hb'|].
      rewrite Ha'. f_equal. f_equal. lia.
Qed.

Lemma dispatch_lives a state : lives_ok state -> lives_ok (dispatch a state).
Proof.
  unfold lives_ok. intros [Hl Hm].
  destruct a as [|lid|now lid score| | | |ach]; cbn [dispatch].
  - unfold initializeProgress. case_bool_decide; cbn; lia.
  - cbn. lia.
  - destruct (updateLevelProgress now lid score state) as [state'|] eqn:E;
      [|lia].
    apply updateLevelProgress_inv in E
      as (p & level & _ & _ & -> & -> & _). lia.
  - cbn. lia.
  - cbn. lia.
  - cbn. lia.
  - cbn. lia.
Qed.

(** X5.  In every state the store reaches from its initial state the
    lives are between 0 and [maxLives], and [maxLives] is 3. *)
Theorem lives_in_range actions :
  0 <= currentLives (run actions initialState)
    <= maxLives (run actions initialState) /\
  maxLives (run actions initialState) = 3.
Proof.
  assert (H : forall state, lives_ok state -> lives_ok (run actions state)).
  { unfold run. induction actions as [|a rest IH]; cbn [fold_left];
      intros state Hs; [exact Hs|]. apply IH, dispatch_lives, Hs. }
  apply (H initialState). unfold lives_ok. cbn. lia.
Qed.

Lemma loseLives_frame n state :
  maxLives (loseLives n state) = maxLives state /\
  levelProgress (loseLives n state) = levelProgress state /\
  totalScore (loseLives n state) = totalScore state.
Proof.
  induction n as [|n IH]; cbn [loseLives]; [tauto|].
  cbn [loseLife maxLives levelProgress totalScore]. exact IH.
Qed.

(** X6.  [n] calls of [loseLife] on a store with [l >= 0] lives leave
    [max(0, l - n)] lives, so none once [n >= l]; [resetLives] then
    brings the lives back to [maxLives]; progress and total score are
    not touched. *)
Theorem loseLives_then_reset n state :
  0 <= currentLives state ->
  currentLives (loseLives n state)
  = Z.max 0 (currentLives state - Z.of_nat n) /\
  currentLives (resetLives (loseLives n state)) = maxLives state /\
  levelProgress (resetLives (loseLives n state)) = levelProgress state /\
  totalScore (resetLives (loseLives n state)) = totalScore state.
Proof.
  intros Hl. destruct (loseLives_frame n state) as (Hm & Hp & Ht).
  split; [|cbn [resetLives currentLives levelProgress totalScore]; tauto].
  clear Hm Hp Ht.
  induction n as [|n IH]; cbn [loseLives].
  - lia.
  - cbn [loseLife currentLives]. rewrite IH. lia.
Qed.

Lemma uniq_elem x xs : forall seen,
  x ∈ uniq seen xs <-> x ∈ xs /\ x ∉ seen.
Proof.
  induction xs as [|y rest IH]; intros seen; cbn [uniq].
  - split; [intros H; inversion H | intros [H _]; inversion H].
  - case_bool_decide as Hy.
    + rewrite IH, elem_of_cons. split; [tauto|].
      intros [[-> | Hr] Hs]; tauto.
    + rewrite !elem_of_cons, IH, elem_of_cons. split.
      * intros [-> | [Hr Hs]]; tauto.
      * intros [[-> | Hr] Hs]; [tauto|].
        destruct (decide (x = y)); tauto.
Qed.

Lemma uniq_NoDup xs : forall seen, NoDup (uniq seen xs).
Proof.
  induction xs as [|y rest IH]; intros seen; cbn [uniq].
  - constructor.
  - case_bool_decide; [apply IH|]. constructor; [|apply IH].
    rewrite uniq_elem, elem_of_cons. tauto.
Qed.

Lemma uniq_fresh xs : forall seen,
  NoDup xs -> (forall x, x ∈ xs -> x ∉ seen) -> uniq seen xs = xs.
Proof.
  induction xs as [|y rest IH]; intros seen Hnd Hfresh; cbn [uniq];
    [reflexivity|].
  apply NoDup_cons in Hnd as [Hy Hnd].
  rewrite bool_decide_eq_false_2 by (apply Hfresh; left).
  f_equal. apply IH; [exact Hnd|].
  intros x Hx. rewrite elem_of_cons. intros [-> | Hs]; [tauto|].
  exact (Hfresh x (list_elem_of_further _ _ _ Hx) Hs).
Qed.

Lemma uniq_known a xs : forall seen,
  NoDup xs -> (forall x, x ∈ xs -> x ∉ seen) -> a ∈ xs \/ a ∈ seen ->
  uniq seen (xs ++ [a]) = xs.
Proof.
  induction xs as [|y rest IH]; intros seen Hnd Hfresh Ha; cbn [app uniq].
  - destruct Ha as [Ha | Ha]; [inversion Ha|].
    rewrite bool_decide_eq_true_2 by exact Ha. reflexivity.
  - apply NoDup_cons in Hnd as [Hy Hnd].
    rewrite bool_decide_eq_false_2 by (apply Hfresh; left).
    f_equal. apply IH; [exact Hnd | |].
    + intros x Hx. rewrite elem_of_cons. intros [-> | Hs]; [tauto|].
      exact (Hfresh x (list_elem_of_further _ _ _ Hx) Hs).
    + rewrite elem_of_cons in Ha. rewrite elem_of_cons.
      destruct Ha as [[-> | Hr] | Hs]; tauto.
Qed.

(** X7.  [addAchievement] keeps the achievements a duplicate-free list:
    the new list holds the old achievements and the new one and nothing
    twice.  On a duplicate-free list a new achievement goes to the end, an
    achievement already there changes nothing, and adding the same
    achievement twice is the same as adding it once. *)
Theorem addAchievement_set achievement state :
  let state' := addAchievement achievement state in
  NoDup (achievements state') /\
  (forall x, x ∈ achievements state' <->
             x ∈ achievements state \/ x = achievement) /\
  (NoDup (achievements state) -> achievement ∉ achievements state ->
   achievements state' = achievements state ++ [achievement]) /\
  (NoDup (achievements state) -> achievement ∈ achievements state ->
   state' = state) /\
  addAchievement achievement state' = state'.
Proof.
  cbv zeta. unfold addAchievement; cbn [achievements].
  split; [apply uniq_NoDup|]. split; [|split; [|split]].
  - intros x. rewrite uniq_elem, elem_of_app, list_elem_of_singleton.
    split; [tauto|]. intros H. split; [exact H | inversion 1].
  - intros Hnd Hnew. apply uniq_fresh.
    + apply NoDup_app. split; [exact Hnd|]. split.
      * intros x Hx Hx'. apply list_elem_of_singleton in Hx'. congruence.
      * apply NoDup_singleton.
    + intros x _. inversion 1.
  - intros Hnd Hold. rewrite uniq_known; [destruct state; reflexivity | | |].
    + exact Hnd.
    + intros x _. inversion 1.
    + left. exact Hold.
  - f_equal. apply uniq_known.
    + apply uniq_NoDup.
    + intros x _. inversion 1.
    + left. rewrite uniq_elem, elem_of_app, list_elem_of_singleton.
      split; [tauto | inversion 1].
Qed.

Lemma fillProgress_nth levels : forall n lp k level,
  List.NoDup (map id levels) -> nth_error levels k = Some level ->
  fillProgress n levels lp !! id level
  = Some (defaultEntry (n + k) level).
Proof.
  induction levels as [|x rest IH]; intros n lp k level Hnd Hk.
  - destruct k; discriminate.
  - inversion Hnd as [|? ? Hnotin Hnd']; subst. cbn [fillProgress].
    destruct k as [|k]; cbn [nth_error] in Hk.
    + injection Hk as ->. rewrite fillProgress_other by exact Hnotin.
      rewrite lookup_insert_eq. f_equal. f_equal. lia.
    + rewrite (IH (S n) _ k level Hnd' Hk). f_equal. f_equal. lia.
Qed.

(** X8.  The default progress holds one entry per level of the table and
    no other: unlocked for the first level only, not completed, with best
    score 0 and no attempts. *)
Theorem createDefaultProgress_entries :
  (forall k level, nth_error LEVELS k = Some level ->
     createDefaultProgress !! id level
     = Some {| levelId := Some (id level);
               isUnlocked := Some (Nat.eqb k 0);
               bestScore := Some (Num 0);
               attempts := Some (Num 0);
               completed := Some false;
               lastPlayedAt := None |}) /\
  (forall i, ~ In i ids -> createDefaultProgress !! i = None).
Proof.
  split.
  - intros k level Hk. unfold createDefaultProgress.
    rewrite (fillProgress_nth LEVELS 0 ∅ k level ids_NoDup Hk).
    reflexivity.
  - intros i Hi. unfold createDefaultProgress.
    rewrite fillProgress_other by exact Hi. apply lookup_empty.
Qed.

Lemma run_lives actions : forall state,
  lives_ok state -> lives_ok (run actions state).
Proof.
  unfold run. induction actions as [|a rest IH]; cbn [fold_left];
    intros state Hs; [exact Hs|]. apply IH, dispatch_lives, Hs.
Qed.

(** X9.  From every state the store reaches, [resetProgress] leads back
    to the initial state. *)
Theorem resetProgress_restores actions :
  resetProgress (run actions initialState) = initialState.
Proof.
  assert (H : lives_ok (run actions initialState)).
  { apply run_lives. unfold lives_ok. cbn. lia. }
  destruct H as [_ Hmax]. unfold resetProgress.
  rewrite Hmax. reflexivity.
Qed.

(** X10.  [unlockLevel] sets [isUnlocked] on the entry of the level and
    keeps its other fields; for an id without entry it creates an entry
    that holds [isUnlocked] only.  Other entries, lives, total score and
    achievements stay, unlocking twice is unlocking once, and an id the
    table does not have still makes [updateLevelProgress] throw. *)
Theorem unlockLevel_effect levelId state :
  let state' := unlockLevel levelId state in
  levelProgress state' !! levelId
  = Some (unlock (spread (levelProgress state !! levelId))) /\
  (levelProgress state !! levelId = None ->
   levelProgress state' !! levelId
   = Some {| levelId := None; isUnlocked := Some true; bestScore := None;
             attempts := None; completed := None; lastPlayedAt := None |}) /\
  (forall other, other <> levelId ->
     levelProgress state' !! other = levelProgress state !! other) /\
  currentLives state' = currentLives state /\
  totalScore state' = totalScore state /\
  achievements state' = achievements state /\
  unlockLevel levelId state' = state' /\
  (~ In levelId ids ->
   forall now score, updateLevelProgress now levelId score state' = None).
Proof.
  cbv zeta. unfold unlockLevel, set_levelProgress;
    cbn [levelProgress currentLives totalScore achievements maxLives].
  split; [apply lookup_insert_eq|]. split.
  { intros ->. rewrite lookup_insert_eq. reflexivity. }
  split.
  { intros other Hne. apply lookup_insert_ne. congruence. }
  split; [reflexivity|]. split; [reflexivity|]. split; [reflexivity|].
  split.
  - f_equal. rewrite lookup_insert_eq. cbn [spread].
    rewrite insert_insert_eq. reflexivity.
  - intros Hid now score. unfold updateLevelProgress; cbn [levelProgress].
    rewrite lookup_insert_eq. cbn [mbind option_bind].
    rewrite (find_hasId_None levelId LEVELS Hid). reflexivity.
Qed.

End StoreMore.

(** ** The level select screen *)

Section LevelSelectFacts.
Import Levels GameStore StoreInvariants LevelSelect.

Lemma completed_known_default : completed_known createDefaultProgress.
Proof.
  intros i p Hp Hc. apply list_elem_of_In.
  destruct (in_dec String.string_dec i ids) as [Hin | Hout]; [exact Hin|].
  unfold createDefaultProgress in Hp.
  rewrite fillProgress_other in Hp by exact Hout.
  rewrite lookup_empty in Hp. discriminate.
Qed.

Lemma completed_known_insert (lp : gmap string LevelProgress) j q :
  completed_known lp -> (completed q = Some true -> j ∈ ids) ->
  completed_known (<[j := q]> lp).
Proof.
  intros Hk Hq i p Hp Hc. destruct (decide (j = i)) as [-> | Hne].
  - rewrite lookup_insert_eq in Hp. injection Hp as <-. apply Hq, Hc.
  - rewrite lookup_insert_ne in Hp by exact Hne. exact (Hk i p Hp Hc).
Qed.

Lemma completed_unlock_spread (lp : gmap string LevelProgress) j :
  completed_known lp ->
  completed (unlock (spread (lp !! j))) = Some true -> j ∈ ids.
Proof.
  intros Hk. destruct (lp !! j) as [p|] eqn:Hp; cbn [spread unlock completed].
  - apply (Hk j p Hp).
  - discriminate.
Qed.

Lemma dispatch_completed_known a state :
  completed_known (levelProgress state) ->
  completed_known (levelProgress (dispatch a state)).
Proof.
  intros Hk. destruct a as [|lid|now lid score| | | |ach]; cbn [dispatch];
    try exact Hk.
  - unfold initializeProgress. case_bool_decide; [|exact Hk].
    apply completed_known_default.
  - unfold unlockLevel, set_levelProgress; cbn [levelProgress].
    apply completed_known_insert; [exact Hk|].
    apply completed_unlock_spread, Hk.
  - destruct (updateLevelProgress now lid score state) as [state'|] eqn:E;
      [|exact Hk].
    apply updateLevelProgress_inv in E
      as (p & level & Hp & Hl & _ & _ & _ & ->).
    assert (Hin : lid ∈ ids).
    { apply list_elem_of_In. apply getLevelById_id in Hl as Hid. subst lid.
      apply in_map. unfold getLevelById in Hl. apply find_some in Hl.
      tauto. }
    assert (Hrec : completed_known
      (<[lid := recorded now score (passingScore level <=? score) p]>
         (levelProgress state))).
    { apply completed_known_insert; [exact Hk | intros _; exact Hin]. }
    unfold unlockNext. destruct (getNextLevel lid) as [next|]; [|exact Hrec].
    destruct (passingScore level <=? score); [|exact Hrec].
    apply completed_known_insert; [exact Hrec|].
    apply completed_unlock_spread, Hk.
  - apply completed_known_default.
Qed.

Lemma NoDup_keys_filter {A} (g : string * A -> bool) l :
  List.NoDup (map fst l) -> List.NoDup (map fst (List.filter g l)).
Proof.
  induction l as [|x l IH]; cbn [map List.filter]; intros Hnd;
    [constructor|].
  inversion Hnd as [|? ? Hnotin Hnd']; subst.
  destruct (g x); [|apply IH, Hnd'].
  cbn [map]. constructor; [|apply IH, Hnd'].
  intros Hin. apply Hnotin. apply in_map_iff in Hin as (y & Hy & Hin).
  apply filter_In in Hin as [Hin _]. rewrite <- Hy. apply in_map, Hin.
Qed.

(** The number of completed entries is at most the number of levels as
    soon as only levels of the table are completed. *)
Lemma completedLevels_bound state :
  completed_known (levelProgress state) ->
  (completedLevels state <= length LEVELS)%nat.
Proof.
  intros Hk. unfold completedLevels, values.
  set (g := fun kp : string * LevelProgress => flag (completed (snd kp))).
  assert (Hswap : forall l : list (string * LevelProgress),
            List.filter (fun p => flag (completed p)) (map snd l)
            = map snd (List.filter g l)).
  { induction l as [|x l IH]; cbn [map List.filter]; [reflexivity|].
    unfold g at 1. destruct (flag (completed (snd x))); cbn [map];
      rewrite IH; reflexivity. }
  rewrite Hswap, length_map.
  rewrite <- (length_map fst), <- (length_map id LEVELS).
  apply NoDup_incl_length.
  - apply NoDup_keys_filter. apply NoDup_ListNoDup.
    apply (NoDup_fst_map_to_list (levelProgress state)).
  - intros k Hin. apply in_map_iff in Hin as ([k' p] & Hfst & Hin).
    cbn [fst] in Hfst. subst k'.
    apply filter_In in Hin as [Hin Hg]. unfold g in Hg; cbn [snd] in Hg.
    apply list_elem_of_In, elem_of_map_to_list in Hin.
    apply list_elem_of_In. apply (Hk k p Hin).
    destruct (completed p) as [[|]|]; [reflexivity | discriminate..].
Qed.

(** X11.  In every state the store reaches, the number of completed
    levels that the level select screen shows is at most the number of
    levels of the table. *)
Theorem completedLevels_at_most_all actions :
  (completedLevels (run actions initialState) <= length LEVELS)%nat.
Proof.
  apply completedLevels_bound.
  assert (H : forall state, completed_known (levelProgress state) ->
            completed_known (levelProgress (run actions state))).
  { unfold run. induction actions as [|a rest IH]; cbn [fold_left];
      intros state Hs; [exact Hs|]. apply IH, dispatch_completed_known, Hs. }
  apply H. exact completed_known_default.
Qed.

Lemma first_unlocked_default : first_unlocked createDefaultProgress.
Proof.
  intros level Hl. eexists. split.
  - unfold createDefaultProgress.
    apply (fillProgress_nth LEVELS 0 ∅ 0 level ids_NoDup Hl).
  - reflexivity.
Qed.

Lemma dispatch_first_unlocked a state :
  first_unlocked (levelProgress state) ->
  first_unlocked (levelProgress (dispatch a state)).
Proof.
  intros Hf.
  destruct a as [|lid|now lid score| | | |ach]; cbn [dispatch];
    try exact Hf.
  - unfold initializeProgress. case_bool_decide; [|exact Hf].
    exact first_unlocked_default.
  - intros level Hl. destruct (Hf level Hl) as (p & Hp & Hu).
    destruct (unlockLevel_keeps lid state (id level) p Hp)
      as (p' & Hp' & Hkeep & _).
    exists p'. split; [exact Hp' | exact (Hkeep Hu)].
  - destruct (updateLevelProgress now lid score state) as [state'|] eqn:E;
      [|exact Hf].
    intros level Hl. destruct (Hf level Hl) as (p & Hp & Hu).
    destruct (updateLevelProgress_keeps _ _ _ _ _ (id level) p E Hp)
      as (p' & Hp' & Hkeep & _).
    exists p'. split; [exact Hp' | exact (Hkeep Hu)].
  - exact first_unlocked_default.
Qed.

(** X12.  In every state the store reaches, the card of every level of
    the table can be rendered and pressed without a throw, a press
    opens the game of the level exactly when the level is unlocked, and
    the card of the first level always opens its game. *)
Theorem cards_render actions :
  let state := run actions initialState in
  (forall level, In level LEVELS ->
     exists p, levelProgress state !! id level = Some p /\
       pressCard state level
       = (if flag (isUnlocked p)
          then Navigate (String.append "/game/" (id level))
          else Ignored)) /\
  (forall level, nth_error LEVELS 0 = Some level ->
     pressCard state level = Navigate (String.append "/game/" (id level))).
Proof.
  cbv zeta. split.
  - intros level Hin.
    destruct (reachable_ok actions (id level)) as (p & Hp & _).
    { apply list_elem_of_In, in_map, Hin. }
    exists p. split; [exact Hp|]. unfold pressCard, isLocked. rewrite Hp.
    destruct (flag (isUnlocked p)); reflexivity.
  - assert (H : forall state, first_unlocked (levelProgress state) ->
              first_unlocked (levelProgress (run actions state))).
    { unfold run. induction actions as [|a rest IH]; cbn [fold_left];
        intros state Hs; [exact Hs|].
      apply IH, dispatch_first_unlocked, Hs. }
    intros level Hl.
    destruct (H initialState first_unlocked_default level Hl)
      as (p & Hp & Hu).
    unfold pressCard, isLocked. rewrite Hp, Hu. reflexivity.
Qed.

End LevelSelectFacts.

(** ** Prompt tips *)

Section NanoFacts.
Import JsString Nano.

Lemma trimStart_split s :
  exists pre, s = pre ++ trimStart s /\ forallb isWhiteSpace pre = true.
Proof.
  induction s as [|c s IH]; cbn [trimStart].
  - exists []. split; reflexivity.
  - destruct (isWhiteSpace c) eqn:Hc.
    + destruct IH as (pre & Hs & Hpre). exists (c :: pre). split.
      * cbn [app]. rewrite <- Hs. reflexivity.
      * cbn [forallb]. rewrite Hc, Hpre. reflexivity.
    + exists []. split; reflexivity.
Qed.

Lemma trimStart_head s c r :
  trimStart s = c :: r -> isWhiteSpace c = false.
Proof.
  induction s as [|d s IH]; cbn [trimStart]; [discriminate|].
  destruct (isWhiteSpace d) eqn:Hd; [exact IH|].
  intros [= <- _]. exact Hd.
Qed.

Lemma trimStart_keeps s :
  (forall c r, s = c :: r -> isWhiteSpace c = false) -> trimStart s = s.
Proof.
  destruct s as [|c r]; intros H; cbn [trimStart]; [reflexivity|].
  rewrite (H c r eq_refl). reflexivity.
Qed.

(** [trim] is idempotent. *)
Lemma trim_trimmed s : trimmed (trim s).
Proof.
  unfold trimmed, trim, trimEnd.
  set (u := trimStart s). set (v := trimStart (rev u)).
  assert (Hhead : trimStart (rev v) = rev v).
  { apply trimStart_keeps. intros c r Hcr.
    destruct (trimStart_split (rev u)) as (pre & Hu & _). fold v in Hu.
    apply (f_equal (@rev Z)) in Hu.
    rewrite rev_involutive, rev_app_distr, Hcr in Hu. cbn [app] in Hu.
    apply (trimStart_head s c (r ++ rev pre)). exact Hu. }
  rewrite Hhead, rev_involutive. unfold v. rewrite trimStart_idem.
  reflexivity.
Qed.

Lemma In_firstn {A} (x : A) n : forall l, In x (firstn n l) -> In x l.
Proof.
  induction n as [|n IH]; intros [|y l]; cbn [firstn In]; try tauto.
  intros [-> | H]; [tauto | right; apply IH, H].
Qed.

Lemma splitLines_blank text :
  forallb isWhiteSpace text = true ->
  forall line, In line (splitLines text) -> forallb isWhiteSpace line = true.
Proof.
  induction text as [|c rest IH]; cbn [forallb splitLines].
  - intros _ line [<- | []]. reflexivity.
  - intros [Hc Hrest]%andb_true_iff line Hin. specialize (IH Hrest).
    destruct (c =? 10).
    + destruct Hin as [<- | Hin]; [reflexivity | apply IH, Hin].
    + destruct (splitLines rest) as [|first lines].
      * destruct Hin as [<- | []]. cbn [forallb]. rewrite Hc. reflexivity.
      * destruct Hin as [<- | Hin].
        -- cbn [forallb]. rewrite Hc. apply IH. left. reflexivity.
        -- apply IH. right. exact Hin.
Qed.

(** X13.  [parseTips] returns at most three tips; none of them is empty
    and none has white space at its start or end; a text of white space
    only gives no tip. *)
Theorem parseTips_shape text :
  (length (parseTips text) <= 3)%nat /\
  (forall tip, In tip (parseTips text) -> tip <> [] /\ trimmed tip) /\
  (forallb isWhiteSpace text = true -> parseTips text = []).
Proof.
  unfold parseTips. split; [apply firstn_le_length|]. split.
  - intros tip Hin. apply In_firstn in Hin.
    apply filter_In in Hin as [Hin Hlen].
    apply in_map_iff in Hin as (line & <- & _). split.
    + intros Hnil. rewrite Hnil in Hlen. discriminate.
    + apply trim_trimmed.
  - intros Hblank.
    replace (List.filter (fun line => truthy (trim line)) (splitLines text))
      with (@nil jsstring); [reflexivity|].
    symmetry. pose proof (splitLines_blank text Hblank) as Hlines.
    induction (splitLines text) as [|line lines IH]; cbn [List.filter];
      [reflexivity|].
    assert (Hl : negb (truthy (trim line)) = true).
    { apply blank_iff, Hlines. left. reflexivity. }
    apply negb_true_iff in Hl. rewrite Hl. apply IH.
    intros l Hl'. apply Hlines. right. exact Hl'.
Qed.

Lemma parseTips_length text : (length (parseTips text) <= 3)%nat.
Proof. unfold parseTips. apply firstn_le_length. Qed.

Lemma generatePromptTips_length os nanoReply apiKey cloudReply userPrompt
    tipsResult :
  fst (generatePromptTips os nanoReply apiKey cloudReply userPrompt)
  = Returns tipsResult ->
  (length (suggestions tipsResult) <= 3)%nat.
Proof.
  unfold generatePromptTips, generateTipsCloud.
  destruct os, nanoReply as [text|], (hasKey apiKey), cloudReply as [ctext|];
    cbn [negb fst]; intros [= <-]; cbn [suggestions];
    try apply parseTips_length; cbn; lia.
Qed.

(** X14.  [generatePromptTips] throws exactly when the API key is not
    set and the tips cannot come from the device (not Android, or the
    native call failed).  Otherwise it returns at most three suggestions,
    from the device exactly when on Android the native call answered;
    the native module is called on Android only, the cloud only with a
    key and when the device gave nothing, and a failed cloud call yields
    the three stock suggestions. *)
Theorem generatePromptTips_fallback os nanoReply apiKey cloudReply userPrompt :
  let result :=
    generatePromptTips os nanoReply apiKey cloudReply userPrompt in
  let fromDevice := os = Android /\ exists text, nanoReply = NanoText text in
  (fst result = ThrowsNoKey <-> hasKey apiKey = false /\ ~ fromDevice) /\
  (forall tipsResult, fst result = Returns tipsResult ->
     (length (suggestions tipsResult) <= 3)%nat /\
     (source tipsResult = nano <-> fromDevice) /\
     (~ fromDevice -> cloudReply = CloudFails ->
      suggestions tipsResult = defaultTips)) /\
  (existsb isCallNano (snd result) = true <-> os = Android) /\
  (existsb isCallCloud (snd result) = true <->
   hasKey apiKey = true /\ ~ fromDevice).
Proof.
  cbv zeta. unfold generatePromptTips, generateTipsCloud.
  assert (Hdef : (length defaultTips <= 3)%nat) by (cbn; lia).
  destruct os, nanoReply as [text|], (hasKey apiKey), cloudReply as [ctext|];
    cbn [negb fst snd existsb isCallNano isCallCloud orb];
    repeat match goal with
           | |- _ /\ _ => split
           | |- _ <-> _ => split
           | |- forall _, _ => intro
           | |- ~ _ => intro
           | H : _ /\ _ |- _ => destruct H
           | H : exists _, _ |- _ => destruct H
           | H : Returns _ = Returns _ |- _ => injection H as <-
           | H : ~ (_ /\ _) |- _ => exfalso; apply H; split; eauto; fail
           end;
    cbn [suggestions source] in *;
    try discriminate; try congruence; try reflexivity;
    try apply parseTips_length; try exact Hdef; eauto.
Qed.

End NanoFacts.

(** ** Image generation and comparison *)

Section ImageFacts.
Import JsString Gemini Scoring.

(** X15.  After a call of [generateImage] that fetched an image, every
    call whose request has the same cache key returns that image from
    the cache, marked as cached, and posts no request. *)
Theorem generateImage_cached apiKey request reply imageCache
    imageUrl revised imageCache' posted :
  generateImage apiKey request reply imageCache
  = (Returns imageUrl revised false, imageCache', Some posted) ->
  forall request' reply',
    cacheKey request' = cacheKey request ->
    generateImage apiKey request' reply' imageCache'
    = (Returns imageUrl None true, imageCache', None).
Proof.
  unfold generateImage. destruct (Nano.hasKey apiKey); cbn [negb];
    [|discriminate].
  destruct (imageCache !! cacheKey request) eqn:Hmiss; [discriminate|].
  destruct reply as [[p|]|apiMessage message]; try discriminate.
  intros [= <- _ <- _] request' reply' ->.
  rewrite lookup_insert_eq. reflexivity.
Qed.

(** X16.  Without an API key [generateImage] throws before it looks at
    the cache and posts nothing; a call that throws leaves the cache as
    it was; a request is posted exactly when the key is set and the cache
    has no entry for the request; the cache changes only by the entry of
    a fulfilled request. *)
Theorem generateImage_cache_discipline apiKey request reply imageCache :
  let result := generateImage apiKey request reply imageCache in
  let outcome := fst (fst result) in
  let imageCache' := snd (fst result) in
  let posted := snd result in
  (Nano.hasKey apiKey = false ->
   outcome = Throws KeyNotSet /\ posted = None) /\
  (forall error, outcome = Throws error -> imageCache' = imageCache) /\
  (posted = None <->
   Nano.hasKey apiKey = false \/ is_Some (imageCache !! cacheKey request)) /\
  (imageCache' = imageCache \/
   exists p, reply = Fulfilled (Some p) /\
     imageCache !! cacheKey request = None /\
     imageCache' = <[cacheKey request := imageUrlOf p]> imageCache /\
     outcome = Returns (imageUrlOf p) (revisedPrompt p) false).
Proof.
  cbv zeta. unfold generateImage.
  destruct (Nano.hasKey apiKey); cbn [negb fst snd].
  - destruct (imageCache !! cacheKey request) as [cachedUrl|] eqn:Hc;
      cbn [fst snd].
    + split; [discriminate|]. split; [discriminate|]. split; [|tauto].
      split; [intros _; right; eauto | reflexivity].
    + destruct reply as [[p|]|apiMessage message]; cbn [fst snd];
        (split; [discriminate|]);
        (split; [try discriminate; reflexivity|]);
        (split;
         [split; [discriminate | intros [H | [x H]]; discriminate]|]).
      * right. exists p. repeat split.
      * left. reflexivity.
      * left. reflexivity.
  - split; [tauto|]. split; [reflexivity|]. split; [tauto|]. tauto.
Qed.

Lemma last_differs (p1 p2 t1 t2 : jsstring) a b :
  a <> b -> p1 ++ t1 ++ [a] <> p2 ++ t2 ++ [b].
Proof.
  intros Hab H. rewrite !app_assoc in H. apply app_inj_tail in H. tauto.
Qed.

Lemma ratioText_last r1 r2 (p1 p2 : jsstring) :
  p1 ++ [0x2D] ++ ratioText r1 = p2 ++ [0x2D] ++ ratioText r2 ->
  p1 = p2 /\ r1 = r2.
Proof.
  intros H.
  destruct r1, r2;
    try (split; [eapply app_inv_tail; exact H | reflexivity]); exfalso.
  - exact (last_differs p1 p2 [45; 49; 58] [45; 49; 54; 58] 49 57
             ltac:(discriminate) H).
  - exact (last_differs p1 p2 [45; 49; 58] [45; 57; 58; 49] 49 54
             ltac:(discriminate) H).
  - exact (last_differs p1 p2 [45; 49; 54; 58] [45; 49; 58] 57 49
             ltac:(discriminate) H).
  - exact (last_differs p1 p2 [45; 49; 54; 58] [45; 57; 58; 49] 57 54
             ltac:(discriminate) H).
  - exact (last_differs p1 p2 [45; 57; 58; 49] [45; 49; 58] 54 49
             ltac:(discriminate) H).
  - exact (last_differs p1 p2 [45; 57; 58; 49] [45; 49; 54; 58] 54 57
             ltac:(discriminate) H).
Qed.

(** X17.  Two requests share a cache key exactly when they have the same
    prompt and the same aspect ratio, an omitted ratio counting as 1:1;
    a hyphen in the prompt cannot make two requests collide. *)
Theorem cacheKey_injective request1 request2 :
  cacheKey request1 = cacheKey request2 <->
  prompt request1 = prompt request2 /\
  effectiveRatio request1 = effectiveRatio request2.
Proof.
  unfold cacheKey. split.
  - apply ratioText_last.
  - intros [-> ->]. reflexivity.
Qed.

Lemma splitOn_no_sep sep text :
  ~ In sep text -> splitOn sep text = [text].
Proof.
  induction text as [|c rest IH]; cbn [splitOn In]; [reflexivity|].
  intros Hn. destruct (Z.eqb_spec c sep); [tauto|].
  rewrite IH by tauto. reflexivity.
Qed.

Lemma splitOn_app sep pre post :
  ~ In sep pre -> splitOn sep (pre ++ sep :: post) = pre :: splitOn sep post.
Proof.
  induction pre as [|c rest IH]; cbn [app splitOn In]; intros Hn.
  - rewrite Z.eqb_refl. reflexivity.
  - destruct (Z.eqb_spec c sep); [tauto|].
    rewrite IH by tauto. reflexivity.
Qed.

(** X18.  The data URI that [generateImage] builds from the bytes of a
    reply is read back by [imageToBase64]: it gives the bytes again, as
    long as they hold no comma (base64 text has none). *)
Theorem data_uri_roundtrip p bytes :
  bytesBase64Encoded p = Some bytes -> bytes <> [] -> ~ In 0x2C bytes ->
  exists imageUrl,
    imageUrlOf p = Some imageUrl /\
    imageToBase64 imageUrl = Inline (Some bytes).
Proof.
  intros Hb Hne Hcomma. unfold imageUrlOf. rewrite Hb.
  destruct bytes as [|c rest]; [congruence|]. cbn [truthy].
  eexists. split; [reflexivity|].
  unfold imageToBase64.
  replace (startsWith (Nano.ofString "data:image/png;base64," ++ c :: rest)
             (Nano.ofString "data:image")) with true by reflexivity.
  change (Nano.ofString "data:image/png;base64,")
    with (Nano.ofString "data:image/png;base64" ++ [0x2C]).
  rewrite <- app_assoc. cbn [app].
  rewrite splitOn_app.
  - rewrite (splitOn_no_sep _ _ Hcomma). reflexivity.
  - vm_compute. intros H.
    repeat (destruct H as [H | H]; [discriminate H|]). exact H.
Qed.

End ImageFacts.

(** ** Validated scores in the store *)

Section ValidatedScores.
Import Levels GameStore StoreInvariants Scoring.







End ValidatedScores.

(** ** The first game screen *)

Section ScreenV1Facts.
Import JsString Levels GameStore GameScreenV1.
Variable level : Level.

(** X20.  The first game screen turns a prompt down when it has fewer
    than 10 code units after trimming: it shows an alert and calls
    nothing.  Otherwise it starts generating and calls [generateImage]
    with the prompt as typed.  The store is not touched either way. *)
Theorem v1_prompt_validation w :
  let result := handleGenerate w in
  store (fst result) = store w /\
  (Z.of_nat (length (trim (userPrompt (screen w)))) < 10 ->
   result = (emit AlertPromptTooShort w, false)) /\
  (10 <= Z.of_nat (length (trim (userPrompt (screen w)))) ->
   snd result = true /\
   isGenerating (screen (fst result)) = true /\
   effects (fst result)
   = effects w ++ [CallGenerateImage (userPrompt (screen w))]).
Proof.
  cbv zeta. unfold handleGenerate.
  destruct (Z.ltb_spec (Z.of_nat (length (trim (userPrompt (screen w))))) 10).
  - split; [reflexivity|]. split; [reflexivity | lia].
  - split; [reflexivity|]. split; [lia|]. intros _. repeat split.
Qed.



(** X22.  When [generateImage] or [compareImages] throws, the first game
    screen shows the failure alert, stops generating, and leaves the
    store and the result flag alone.  When [updateLevelProgress] throws
    because the store has no entry for the level, the result is already
    shown: nothing is recorded and no life is taken, whatever the
    score. *)
Theorem v1_failures now message w :
  (let result := afterGenerate (GenerateThrows message) w in
   snd result = false /\
   store (fst result) = store w /\
   showResult (screen (fst result)) = showResult (screen w) /\
   isGenerating (screen (fst result)) = false /\
   effects (fst result)
   = effects w ++ [AlertGenerationFailed (alertText message)]) /\
  (let w' := afterCompare level now (CompareThrows message) w in
   store w' = store w /\
   showResult (screen w') = showResult (screen w) /\
   isGenerating (screen w') = false /\
   effects w' = effects w ++ [AlertGenerationFailed (alertText message)]) /\
  (forall s f m,
     levelProgress (store w) !! id level = None ->
     let w' := afterCompare level now (Compared s f m) w in
     store w' = store w /\
     showResult (screen w') = true /\
     isGenerating (screen w') = false /\
     effects w' = effects w ++ [AlertGenerationFailed EngineMessage]).
Proof.
  split; [|split].
  - cbv zeta. cbn. repeat split.
  - cbv zeta. cbn. repeat split.
  - intros s f m Hnone. cbv zeta. unfold afterCompare.
    cbn [onScreen store].
    assert (Hthrow : updateLevelProgress now (id level) s (store w) = None).
    { unfold updateLevelProgress. rewrite Hnone. reflexivity. }
    rewrite Hthrow. cbn. repeat split.
Qed.

(** X23.  On a change of the prompt the first game screen asks for tips
    only when the text has more than 15 code units, and clears the tips
    otherwise; it never shows more than three tips when it showed at most
    three before; the store is not touched. *)
Theorem v1_tips os nanoReply apiKey cloudReply text w :
  let w' := handlePromptChange os nanoReply apiKey cloudReply text w in
  userPrompt (screen w') = text /\
  store w' = store w /\
  ((length text <= 15)%nat ->
   tips (screen w') = [] /\ effects w' = effects w) /\
  ((15 < length text)%nat ->
   effects w' = effects w ++ [CallGenerateTips text]) /\
  ((length (tips (screen w)) <= 3)%nat ->
   (length (tips (screen w')) <= 3)%nat).
Proof.
  cbv zeta. unfold handlePromptChange.
  destruct (Z.ltb_spec 15 (Z.of_nat (length text))) as [Hlong | Hshort].
  - destruct (Nano.generatePromptTips os nanoReply apiKey cloudReply text)
      as [outcome calls] eqn:E.
    cbn [fst]. destruct outcome as [tipsResult|];
      cbn [onScreen emit screen store effects userPrompt tips setTips
           setUserPrompt];
      (split; [reflexivity|]); (split; [reflexivity|]);
      (split; [lia|]); (split; [reflexivity|]).
    + intros _.
      apply (generatePromptTips_length os nanoReply apiKey cloudReply text).
      rewrite E. reflexivity.
    + tauto.
  - cbn [onScreen emit screen store effects userPrompt tips setTips
         setUserPrompt length].
    split; [reflexivity|]. split; [reflexivity|].
    split; [tauto|]. split; [lia|]. lia.
Qed.

End ScreenV1Facts.

(** ** More on the second game screen *)

Section ScreenV2More.
Import JsString GameScreen PlaceholderScores.
Variable completeLevel :
  string -> GameStore.GameState -> GameStore.GameState.
Variable getPenaltyDetails :
  gmap string HintLedger.HintUsageRecord -> string -> Z -> Z ->
  Levels.Difficulty -> PenaltyCalculator.ScoreBreakdown.
Variable level : ApiLevel.

(** X24.  A prompt with a character that is not white space is
    submitted: for a level of one of the three challenge types the screen
    sets [isGenerating], clears the error, starts exactly one evaluator
    call or timer and suspends; for a level of no known type it calls
    nothing and scores the attempt at once with raw score 0.  The store
    is not touched before the attempt is scored. *)
Theorem submit_starts_one_call w :
  forallb isWhiteSpace (prompt (screen w)) = false ->
  let w' := handleGenerate completeLevel getPenaltyDetails level w in
  (forall t, type level = Some t ->
     exists p, inFlight w' = inFlight w ++ [p] /\
       evaluatorCalls w' = S (evaluatorCalls w) /\
       isGenerating (screen w') = true /\
       promptError (screen w') = None /\
       lastScore (screen w') = lastScore (screen w) /\
       store w' = store w) /\
  (type level = None ->
     inFlight w' = inFlight w /\
     evaluatorCalls w' = evaluatorCalls w /\
     isGenerating (screen w') = false /\
     lastScore (screen w')
     = PenaltyCalculator.finalScore
         (getPenaltyDetails (ledger w) (id level) 0 (passingScore level)
            (difficulty level))).
Proof.
  intros Hnb. cbv zeta.
  rewrite (handleGenerate_accepts completeLevel getPenaltyDetails level w Hnb).
  cbv zeta. split.
  - intros t Ht. rewrite Ht.
    destruct t; eexists;
      (split; [reflexivity|]);
      (split;
       [unfold evaluatorCalls;
        cbn [suspend emit onScreen effects];
        rewrite List.filter_app, length_app; cbn; lia|]);
      repeat split.
  - intros Hnone. rewrite Hnone.
    destruct (scoreAttempt_frame completeLevel getPenaltyDetails level 0
                (onScreen (setIsGenerating true)
                   (onScreen (setPromptError None) w)))
      as (Hfl & _ & Hcalls & _).
    split; [exact Hfl|]. split; [exact Hcalls|]. split; [reflexivity|].
    unfold finally, scoreAttempt, penaltyDetailsOf.
    destruct (passingScore level <=? _); reflexivity.
Qed.

(** X25.  When a suspended attempt settles with a result, the score
    shown is the final score that [getPenaltyDetails] gives for the raw
    score of the placeholder evaluation (100 for a code level, 85 for a
    copywriting level, 70 plus the draw for an image level) and for the
    hint ledger as it is when the attempt settles: hints revealed while
    the evaluation was in flight count. *)
Theorem settled_attempt_score k p imageUrl draw l w :
  inFlight w !! k = Some p ->
  let w' :=
    step completeLevel getPenaltyDetails level
      (Settle k (Fulfilled imageUrl) draw)
      (step completeLevel getPenaltyDetails level (Hints l) w) in
  lastScore (screen w')
  = PenaltyCalculator.finalScore
      (getPenaltyDetails l (id level) (rawScoreOf p draw)
         (passingScore level) (difficulty level)) /\
  isGenerating (screen w') = false /\
  ledger w' = l.
Proof.
  intros Hk. cbv zeta. cbn [step setLedger inFlight]. rewrite Hk.
  destruct p; cbn [resume rawScoreOf];
    unfold finally, scoreAttempt, penaltyDetailsOf;
    cbn [onScreen settle ledger];
    destruct (passingScore level <=? _); repeat split.
Qed.

End ScreenV2More.

(** ** The further properties at concrete inputs *)


Lemma attempts_accumulate_witness :
  exists p',
    GameStore.levelProgress
      (GameStore.run
         (StoreInvariants.attemptsOn "easy-001"
            [("t1"%string, 70); ("t2"%string, 85); ("t3"%string, 60)])
         GameStore.initialState) !! "easy-001"%string = Some p' /\
    GameStore.bestScore p' = Some (GameStore.Num 85) /\
    GameStore.attempts p' = Some (GameStore.Num 3).
Proof.
  apply (attempts_accumulate "easy-001"
           [("t1"%string, 70); ("t2"%string, 85); ("t3"%string, 60)]
           GameStore.initialState
           {| GameStore.levelId := Some "easy-001"%string;
              GameStore.isUnlocked := Some true;
              GameStore.bestScore := Some (GameStore.Num 0);
              GameStore.attempts := Some (GameStore.Num 0);
              GameStore.completed := Some false;
              GameStore.lastPlayedAt := None |} 0 0).
  - vm_compute. tauto.
  - vm_compute. reflexivity.
  - reflexivity.
  - reflexivity.
Defined.

Lemma loseLives_then_reset_witness :
  GameStore.currentLives (StoreInvariants.loseLives 5 GameStore.initialState)
  = 0 /\
  GameStore.currentLives
    (GameStore.resetLives
       (StoreInvariants.loseLives 5 GameStore.initialState)) = 3.
Proof.
  destruct (loseLives_then_reset 5 GameStore.initialState) as (H1 & H2 & _).
  - cbn. lia.
  - split; [exact H1 | exact H2].
Defined.

Lemma generateImage_cached_witness :
  Gemini.generateImage (Some [107])
    {| Gemini.prompt := [97; 45; 98];
       Gemini.aspectRatio := Some Gemini.ratio_1_1;
       Gemini.numberOfImages := None |}
    (Gemini.AxiosError None [101])
    (<[ [97; 45; 98; 45; 49; 58; 49] := Some [100; 97; 116; 97; 58; 105; 109;
          97; 103; 101; 47; 112; 110; 103; 59; 98; 97; 115; 101; 54; 52; 44;
          81] ]> ∅)
  = (Gemini.Returns
       (Some [100; 97; 116; 97; 58; 105; 109; 97; 103; 101; 47; 112; 110;
              103; 59; 98; 97; 115; 101; 54; 52; 44; 81])
       None true,
     <[ [97; 45; 98; 45; 49; 58; 49] := Some [100; 97; 116; 97; 58; 105; 109;
          97; 103; 101; 47; 112; 110; 103; 59; 98; 97; 115; 101; 54; 52; 44;
          81] ]> ∅,
     None).
Proof.
  apply (generateImage_cached (Some [107])
           {| Gemini.prompt := [97; 45; 98];
              Gemini.aspectRatio := None;
              Gemini.numberOfImages := Some 2 |}
           (Gemini.Fulfilled
              (Some {| Gemini.bytesBase64Encoded := Some [81];
                       Gemini.mimeType := None;
                       Gemini.revisedPrompt := None |}))
           ∅ _ None _
           {| Gemini.postedPrompt := [97; 45; 98];
              Gemini.postedSampleCount := 2;
              Gemini.postedRatio := [49; 58; 49] |}).
  - reflexivity.
  - reflexivity.
Defined.

Lemma data_uri_roundtrip_witness :
  exists imageUrl,
    Gemini.imageUrlOf
      {| Gemini.bytesBase64Encoded := Some [81; 85; 74; 68];
         Gemini.mimeType := Some [105];
         Gemini.revisedPrompt := None |} = Some imageUrl /\
    Scoring.imageToBase64 imageUrl = Scoring.Inline (Some [81; 85; 74; 68]).
Proof.
  apply (data_uri_roundtrip
           {| Gemini.bytesBase64Encoded := Some [81; 85; 74; 68];
              Gemini.mimeType := Some [105];
              Gemini.revisedPrompt := None |} [81; 85; 74; 68]).
  - reflexivity.
  - discriminate.
  - cbn. intros H.
    repeat (destruct H as [H | H]; [discriminate H|]). exact H.
Defined.


Lemma submit_starts_one_call_witness :
  GameScreen.evaluatorCalls
    (GameScreen.handleGenerate (fun _ st => st)
       NanoAssistant.getPenaltyDetails
       {| GameScreen.id := "code-001";
          GameScreen.type := Some GameScreen.code;
          GameScreen.passingScore := 80;
          GameScreen.difficulty := Levels.hard |}
       (GameScreen.handlePromptChange [32; 120; 32]
          (GameScreen.initialWorld GameStore.initialState ∅)))
  = 1%nat.
Proof.
  destruct (submit_starts_one_call (fun _ st => st)
              NanoAssistant.getPenaltyDetails
              {| GameScreen.id := "code-001";
                 GameScreen.type := Some GameScreen.code;
                 GameScreen.passingScore := 80;
                 GameScreen.difficulty := Levels.hard |}
              (GameScreen.handlePromptChange [32; 120; 32]
                 (GameScreen.initialWorld GameStore.initialState ∅)))
    as (H & _).
  - reflexivity.
  - destruct (H GameScreen.code eq_refl) as (p & _ & Hcalls & _).
    exact Hcalls.
Defined.

Lemma settled_attempt_score_witness :
  GameScreen.lastScore
    (GameScreen.screen
       (GameScreen.run (fun _ st => st) NanoAssistant.getPenaltyDetails
          {| GameScreen.id := "copy-001";
             GameScreen.type := Some GameScreen.copywriting;
             GameScreen.passingScore := 75;
             GameScreen.difficulty := Levels.easy |}
          [GameScreen.PromptChange [97]; GameScreen.Press;
           GameScreen.Hints
             (<["copy-001"%string :=
                  {| HintLedger.revealed := [(1%nat, 20); (0%nat, 10)] |}]>
                ∅);
           GameScreen.Settle 0 (GameScreen.Fulfilled None) 0]
          (GameScreen.initialWorld GameStore.initialState ∅)))
  = 69.
Proof.
  destruct (settled_attempt_score (fun _ st => st)
              NanoAssistant.getPenaltyDetails
              {| GameScreen.id := "copy-001";
                 GameScreen.type := Some GameScreen.copywriting;
                 GameScreen.passingScore := 75;
                 GameScreen.difficulty := Levels.easy |}
              0%nat GameScreen.AwaitCopywriting None 0
              (<["copy-001"%string :=
                   {| HintLedger.revealed := [(1%nat, 20); (0%nat, 10)] |}]>
                 ∅)
              (GameScreen.run (fun _ st => st) NanoAssistant.getPenaltyDetails
                 {| GameScreen.id := "copy-001";
                    GameScreen.type := Some GameScreen.copywriting;
                    GameScreen.passingScore := 75;
                    GameScreen.difficulty := Levels.easy |}
                 [GameScreen.PromptChange [97]; GameScreen.Press]
                 (GameScreen.initialWorld GameStore.initialState ∅)))
    as (H & _).
  - reflexivity.
  - refine (eq_trans H _). vm_compute. reflexivity.
Defined.
